(** * Contract scanner ([validate-contracts.js]) : model and properties

    The scanner reads a configuration file, enumerates the source files of a
    working tree, tests every line against three registries of known
    infrastructure names and prints one JSON report.

    The development embeds the script function by function:
    - [JsString]   : the string primitives the script calls;
    - [Regex]      : the fragment of JavaScript regular expressions that the
                     three patterns are written in, compiled from the pattern
                     text the script builds;
    - [Scanner]    : the registries, [scanFile], [getSourceFiles],
                     [validateDeclaredContracts], [parseContractsFile] and
                     [validate], over an explicit [World] (file system,
                     YAML loader, module resolution, clock). *)

From Stdlib Require Import List Bool NArith ZArith String Ascii Lia DecimalString.
Import ListNotations.

Set Implicit Arguments.
Set Warnings "-register-all,-abstract-large-number".

(* ================================================================= *)
(** ** JavaScript strings *)

(** A JavaScript string is a sequence of UTF-16 code units. *)
Module JsString.

Definition jsstr := list N.

(** A literal of the script, written in ASCII. *)
Definition js (s : string) : jsstr :=
  map N_of_ascii (list_ascii_of_string s).

Definition dquote : N := 34%N.
Definition squote : N := 39%N.
Definition backtick : N := 96%N.
Definition newline : N := 10%N.

Fixpoint eqb (a b : jsstr) : bool :=
  match a, b with
  | [], [] => true
  | x :: a', y :: b' => N.eqb x y && eqb a' b'
  | _, _ => false
  end.

(** [LineTerminator] of the language: LF, CR, LS, PS. *)
Definition isLineTerminator (c : N) : bool :=
  (N.eqb c 10 || N.eqb c 13 || N.eqb c 8232 || N.eqb c 8233)%N.

(** [WhiteSpace] of the language: TAB, VT, FF, SP, NBSP, ZWNBSP and the
    space separators of Unicode. *)
Definition isWhiteSpace (c : N) : bool :=
  (N.eqb c 9 || N.eqb c 11 || N.eqb c 12 || N.eqb c 32 || N.eqb c 160
   || N.eqb c 5760 || (N.leb 8192 c && N.leb c 8202)
   || N.eqb c 8239 || N.eqb c 8287 || N.eqb c 12288 || N.eqb c 65279)%N.

(** What [trim] strips and what the class escape [\s] matches. *)
Definition isSpace (c : N) : bool := isWhiteSpace c || isLineTerminator c.

Fixpoint trimStart (s : jsstr) : jsstr :=
  match s with
  | c :: s' => if isSpace c then trimStart s' else s
  | [] => []
  end.

Definition trimEnd (s : jsstr) : jsstr := rev (trimStart (rev s)).

(** [s.trim()] *)
Definition trim (s : jsstr) : jsstr := trimEnd (trimStart s).

(** [s.startsWith(p)] *)
Fixpoint startsWith (p s : jsstr) : bool :=
  match p, s with
  | [], _ => true
  | x :: p', y :: s' => N.eqb x y && startsWith p' s'
  | _ :: _, [] => false
  end.

(** [s.endsWith(p)] *)
Definition endsWith (p s : jsstr) : bool := startsWith (rev p) (rev s).

(** [s.includes(p)] *)
Fixpoint includes (p s : jsstr) : bool :=
  startsWith p s ||
  match s with
  | [] => false
  | _ :: s' => includes p s'
  end.

(** [s.substring(0, n)] *)
Definition substring0 (n : nat) (s : jsstr) : jsstr := firstn n s.

(** [s.split('\n')] : the pieces between line feeds, at least one piece. *)
Fixpoint split_lines (s : jsstr) : list jsstr :=
  match s with
  | [] => [[]]
  | c :: s' =>
      if N.eqb c newline then [] :: split_lines s'
      else match split_lines s' with
           | l :: ls => (c :: l) :: ls
           | [] => [[c]]
           end
  end.

(** [s.replace(/c/g, r)] for a one-character pattern : every occurrence. *)
Fixpoint replaceAllChar (c : N) (r : jsstr) (s : jsstr) : jsstr :=
  match s with
  | [] => []
  | x :: s' => (if N.eqb x c then r else [x]) ++ replaceAllChar c r s'
  end.

(** [s.replace(p, r)] for a string pattern : the first occurrence only. *)
Fixpoint replaceFirst (p r : jsstr) (s : jsstr) : jsstr :=
  if startsWith p s then r ++ skipn (List.length p) s
  else match s with
       | [] => []
       | x :: s' => x :: replaceFirst p r s'
       end.

(** [list.includes(s)] on an array of strings. *)
Definition arrayIncludes (l : list jsstr) (s : jsstr) : bool :=
  existsb (eqb s) l.

(** ASCII upper-casing; every other code unit is left alone. *)
Definition asciiUpper (c : N) : N :=
  if (N.leb 97 c && N.leb c 122)%N then (c - 32)%N else c.

Definition isAscii (c : N) : bool := N.ltb c 128.

End JsString.
Import JsString.

(* ================================================================= *)
(** ** Paths *)

(** [path.join] of the platform library, in its POSIX form, for two
    arguments. *)
Module Path.

Definition slash : N := 47%N.

(** The pieces of a text between occurrences of [sep], at least one. *)
Fixpoint splitOn (sep : N) (s : jsstr) : list jsstr :=
  match s with
  | [] => [[]]
  | c :: s' =>
      if N.eqb c sep then [] :: splitOn sep s'
      else match splitOn sep s' with
           | l :: ls => (c :: l) :: ls
           | [] => [[c]]
           end
  end.

(** The segments joined by a slash. *)
Fixpoint joinSlash (segs : list jsstr) : jsstr :=
  match segs with
  | [] => []
  | seg :: rest =>
      match rest with
      | [] => seg
      | _ :: _ => seg ++ slash :: joinSlash rest
      end
  end.

(** The segments of a path resolved from left to right: empty segments and
    [.] are dropped, [..] removes the segment before it or, when there is
    none to remove, is kept if the path is relative. [kept] holds the
    segments kept so far, the last one first. *)
Fixpoint normalizeSegments (allowAboveRoot : bool) (segs kept : list jsstr)
    : list jsstr :=
  match segs with
  | [] => rev kept
  | seg :: rest =>
      if eqb seg [] || eqb seg (js ".") then
        normalizeSegments allowAboveRoot rest kept
      else if eqb seg (js "..") then
        match kept with
        | top :: below =>
            if eqb top (js "..") then
              normalizeSegments allowAboveRoot rest
                (if allowAboveRoot then seg :: kept else kept)
            else normalizeSegments allowAboveRoot rest below
        | [] =>
            normalizeSegments allowAboveRoot rest
              (if allowAboveRoot then [seg] else [])
        end
      else normalizeSegments allowAboveRoot rest (seg :: kept)
  end.

(** [path.normalize(p)] *)
Definition normalize (p : jsstr) : jsstr :=
  match p with
  | [] => js "."
  | _ :: _ =>
      let isAbsolute := startsWith [slash] p in
      let trailingSeparator := endsWith [slash] p in
      let body := joinSlash (normalizeSegments (negb isAbsolute) (splitOn slash p) []) in
      match body with
      | [] => if isAbsolute then [slash]
              else if trailingSeparator then js "./" else js "."
      | _ :: _ =>
          (if isAbsolute then [slash] else [])
          ++ body ++ (if trailingSeparator then [slash] else [])
      end
  end.

(** [path.join(a, b)] : the non-empty arguments joined by a slash, then
    normalised. *)
Definition join (a b : jsstr) : jsstr :=
  match a, b with
  | [], [] => js "."
  | [], _ :: _ => normalize b
  | _ :: _, [] => normalize a
  | _ :: _, _ :: _ => normalize (a ++ slash :: b)
  end.

End Path.

(* ================================================================= *)
(** ** Regular expressions *)

(** The three patterns of the script are sequences of one-character atoms
    (a literal, the wildcard [.], a bracketed class of literals and [\s]),
    each optionally followed by [?] or [+].  [compile] reads exactly this
    fragment from the pattern text and refuses anything else. *)
Module Regex.

Inductive ClassItem :=
| CChar (c : N)
| CSpace.

Inductive Atom :=
| AChar (c : N)
| AAny
| AClass (items : list ClassItem).

Inductive Quant := One | Opt | Plus.

Abbreviation Term := (Atom * Quant)%type.

Inductive Token :=
| TAtom (a : Atom)
| TQuest
| TPlus.

Definition isChar (c : N) (lit : string) : bool := eqb [c] (js lit).

(** Characters with a syntactic role outside a class that the fragment does
    not cover. *)
Definition unsupported (c : N) : bool :=
  isChar c "\" || isChar c "(" || isChar c ")" || isChar c "|" || isChar c "*" || isChar c "{"
  || isChar c "}" || isChar c "^" || isChar c "$" || isChar c "]".

(** Tokens of a pattern; [cls] holds the members read so far while inside
    a bracketed class. *)
Fixpoint lex (cls : option (list ClassItem)) (s : jsstr) : option (list Token) :=
  match s with
  | [] => match cls with
          | None => Some []
          | Some _ => None
          end
  | c :: s' =>
      match cls with
      | Some items =>
          if isChar c "]" then
            option_map (cons (TAtom (AClass items))) (lex None s')
          else if isChar c "\" then
            match s' with
            | d :: s'' => if isChar d "s" then lex (Some (items ++ [CSpace])) s'' else None
            | [] => None
            end
          else if isChar c "-" then
            match items, s' with
            | [], _ => lex (Some [CChar c]) s'
            | _ :: _, d :: _ => if isChar d "]" then lex (Some (items ++ [CChar c])) s' else None
            | _ :: _, [] => None
            end
          else if isChar c "^" && match items with [] => true | _ => false end then None
          else if isAscii c then lex (Some (items ++ [CChar c])) s'
          else None
      | None =>
          if isChar c "[" then lex (Some []) s'
          else if isChar c "." then option_map (cons (TAtom AAny)) (lex None s')
          else if isChar c "?" then option_map (cons TQuest) (lex None s')
          else if isChar c "+" then option_map (cons TPlus) (lex None s')
          else if unsupported c then None
          else if isAscii c then option_map (cons (TAtom (AChar c))) (lex None s')
          else None
      end
  end.

(** An atom takes the quantifier that follows it, if any. *)
Fixpoint group (ts : list Token) : option (list Term) :=
  match ts with
  | [] => Some []
  | TAtom a :: ts' =>
      match ts' with
      | TQuest :: ts'' => option_map (cons (a, Opt)) (group ts'')
      | TPlus :: ts'' => option_map (cons (a, Plus)) (group ts'')
      | _ => option_map (cons (a, One)) (group ts')
      end
  | TQuest :: _ => None
  | TPlus :: _ => None
  end.

Definition compile (pattern : jsstr) : option (list Term) :=
  match lex None pattern with
  | Some ts => group ts
  | None => None
  end.

Record RegExp := { terms : list Term; ignoreCase : bool }.

(** [new RegExp(pattern, flags)].  The flag [g] has no effect on the single
    [test] that the script runs on each fresh object. *)
Definition newRegExp (pattern flags : jsstr) : option RegExp :=
  match compile pattern with
  | Some ts => Some {| terms := ts; ignoreCase := includes (js "i") flags |}
  | None => None
  end.

(** Canonicalisation of a code unit under the flag [i] (without [u]).  A
    pattern literal is ASCII; a code unit above ASCII never canonicalises
    to an ASCII one, so comparing against a pattern literal only needs the
    ASCII upper-casing. *)
Definition canonicalize (ic : bool) (c : N) : N :=
  if ic then asciiUpper c else c.

Definition charMatches (ic : bool) (p c : N) : bool :=
  N.eqb (canonicalize ic p) (canonicalize ic c).

Definition itemMatches (ic : bool) (it : ClassItem) (c : N) : bool :=
  match it with
  | CChar p => charMatches ic p c
  | CSpace => isSpace c
  end.

Definition atomMatches (ic : bool) (a : Atom) (c : N) : bool :=
  match a with
  | AChar p => charMatches ic p c
  | AAny => negb (isLineTerminator c)
  | AClass items => existsb (fun it => itemMatches ic it c) items
  end.

(** Does some prefix of the input match the terms?  Quantifiers are greedy
    and backtrack, as in the language. *)
Fixpoint matchHere (ic : bool) (r : list Term) : jsstr -> bool :=
  match r with
  | [] => fun _ => true
  | (a, q) :: r' =>
      let k := matchHere ic r' in
      let one := fun s => match s with
                          | c :: s' => atomMatches ic a c && k s'
                          | [] => false
                          end in
      match q with
      | One => one
      | Opt => fun s => one s || k s
      | Plus =>
          fix loop (s : jsstr) : bool :=
            match s with
            | c :: s' => atomMatches ic a c && (loop s' || k s')
            | [] => false
            end
      end
  end.

(** A match may start at any index of the input. *)
Fixpoint search (ic : bool) (r : list Term) (s : jsstr) : bool :=
  matchHere ic r s ||
  match s with
  | [] => false
  | _ :: s' => search ic r s'
  end.

(** [re.test(s)] *)
Definition test (re : RegExp) (s : jsstr) : bool :=
  search (ignoreCase re) (terms re) s.

(** [new RegExp(pattern, flags).test(s)]; a pattern outside the fragment
    matches nothing (no pattern of the script is). *)
Definition regexTest (pattern flags s : jsstr) : bool :=
  match newRegExp pattern flags with
  | Some re => test re s
  | None => false
  end.

(** *** Automaton view of [matchHere], used to evaluate a match on an input
    whose beginning is known. *)

Definition nullable (r : list Term) : bool :=
  forallb (fun t => match snd t with Opt => true | _ => false end) r.

(** The term lists that remain after reading [c]. *)
Fixpoint step (ic : bool) (c : N) (r : list Term) : list (list Term) :=
  match r with
  | [] => []
  | (a, One) :: r' => if atomMatches ic a c then [r'] else []
  | (a, Opt) :: r' => (if atomMatches ic a c then [r'] else []) ++ step ic c r'
  | (a, Plus) :: r' => if atomMatches ic a c then [(a, Plus) :: r'; r'] else []
  end.

(** Reading the word [w] from the states [rs] : whether a match completed
    before the end of [w], and the states left. *)
Fixpoint run (ic : bool) (rs : list (list Term)) (w : jsstr) : bool * list (list Term) :=
  match w with
  | [] => (false, rs)
  | c :: w' =>
      if existsb nullable rs then (true, [])
      else run ic (flat_map (step ic c) rs) w'
  end.

End Regex.
Import Regex.

(* ================================================================= *)
(** ** The scanner *)

Module Scanner.

(** *** Values, exceptions and the world of one run *)

(** An exception object; the script only reads its [message]. *)
Inductive JsError := MkError (msg : jsstr).

Definition errorMessage (e : JsError) : jsstr :=
  match e with MkError m => m end.

(** A computation that returns or throws. *)
Inductive res (A : Type) :=
| Ok (a : A)
| Throw (e : JsError).

Arguments Throw {A} e.

Definition bind {A B} (c : res A) (k : A -> res B) : res B :=
  match c with
  | Ok a => k a
  | Throw e => Throw e
  end.

Notation "x <- c ;; k" := (bind c (fun x => k))
  (at level 61, c at next level, right associativity).

(** What the YAML loader may hand back : any plain value.  A number stands
    for its truth value only (zero is falsy).  The values are finite trees:
    a document whose aliases make the loader return an object that contains
    itself has no counterpart here, and the statements that print a value
    of the document are made for strings, numbers and booleans. *)
Inductive JsValue :=
| JUndefined
| JNull
| JBool (b : bool)
| JNum (n : Z)
| JStr (s : jsstr)
| JArr (items : list JsValue)
| JObj (props : list (jsstr * JsValue)).

Definition truthy (v : JsValue) : bool :=
  match v with
  | JUndefined | JNull => false
  | JBool b => b
  | JNum n => negb (Z.eqb n 0)
  | JStr s => match s with [] => false | _ => true end
  | JArr _ | JObj _ => true
  end.

Definition nullish (v : JsValue) : bool :=
  match v with
  | JUndefined | JNull => true
  | _ => false
  end.

Fixpoint lookup (key : jsstr) (props : list (jsstr * JsValue)) : JsValue :=
  match props with
  | [] => JUndefined
  | (k, v) :: rest => if eqb k key then v else lookup key rest
  end.

(** [v.key] : a [TypeError] on [undefined] and [null], with the text of
    the runtime; primitives and arrays have none of the keys the script
    reads. *)
Definition getProp (v : JsValue) (key : jsstr) : res JsValue :=
  match v with
  | JUndefined =>
      Throw (MkError (js "Cannot read properties of undefined (reading '"
                      ++ key ++ js "')"))
  | JNull =>
      Throw (MkError (js "Cannot read properties of null (reading '"
                      ++ key ++ js "')"))
  | JObj props => Ok (lookup key props)
  | _ => Ok JUndefined
  end.

(** [v?.key] *)
Definition getPropOpt (v : JsValue) (key : jsstr) : res JsValue :=
  if nullish v then Ok JUndefined else getProp v key.

(** The elements [for (const x of v)] visits : those of an array, the
    characters of a string; nothing else here is iterable. *)
Definition iterate (v : JsValue) : res (list JsValue) :=
  match v with
  | JArr items => Ok items
  | JStr s => Ok (map (fun c => JStr [c]) s)
  | _ => Throw (MkError (js "contracts.dynamodb.tables is not iterable"))
  end.

(** A directory entry as [readdirSync(dir, { withFileTypes: true })] lists
    it; a directory carries what listing it in turn gives. *)
Inductive Dirent :=
| DirentFile (name : jsstr)
| DirentDirectory (name : jsstr) (listing : res (list Dirent))
| DirentOther (name : jsstr).

Definition direntName (d : Dirent) : jsstr :=
  match d with
  | DirentFile n => n
  | DirentDirectory n _ => n
  | DirentOther n => n
  end.

(** Everything outside the script that a run observes. *)
Record World := {
  existsSync : jsstr -> bool;
  readFileSync : jsstr -> res jsstr;
  readdirSync : jsstr -> res (list Dirent);
  yamlLoad : jsstr -> res JsValue;
  contractsResolvable : bool;
  now : jsstr
}.

(** *** Findings and report *)

Inductive FindingType :=
| hardcoded_table_name
| hardcoded_lambda_name
| hardcoded_event_source
| scan_error
| config_error
| invalid_contract_path
| package_not_installed.

Inductive Severity := sev_error | sev_warning.

(** A finding object; a key the script does not set is [None]. *)
Record Finding := {
  type : FindingType;
  severity : Severity;
  file : option jsstr;
  line : option nat;
  message : JsValue;
  contract : option jsstr;
  snippet : option jsstr;
  expected : option jsstr
}.

Module Summary.
Record t := { total : nat; errors : nat; warnings : nat; filesScanned : nat }.
End Summary.

Module Metadata.
Record t := { configFile : jsstr; advisoryMode : bool; timestamp : jsstr; version : jsstr }.
End Metadata.

Record Report := {
  passed : bool;
  violations : list Finding;
  warnings : list Finding;
  summary : Summary.t;
  metadata : Metadata.t
}.

(** How the process ends : the reports printed on standard output, the exit
    status, and the exception that escaped, if one did (the runtime then
    exits with status 1). *)
Record Outcome := {
  stdout : list Report;
  exitCode : Z;
  uncaught : option JsError
}.

(** *** Registries *)

Definition KNOWN_TABLE_PATTERNS : list jsstr := map js [
  "teric-agentic-work-items";
  "teric-agentic-initiatives";
  "teric-agentic-code-reviews";
  "teric-agentic-knowledge-facts";
  "teric-agentic-e2e-test-runs";
  "teric-agentic-e2e-consecutive-passes";
  "teric-agentic-e2e-repository-registry";
  "teric-agentic-workflows";
  "teric-agentic-executions";
  "teric-agentic-metrics";
  "teric-agentic-contract-release-records";
  "teric-agentic-crr-consumption-tokens"
]%string.

Definition KNOWN_LAMBDA_PATTERNS : list jsstr := map js [
  "app-code-review";
  "app-e2e-tester";
  "app-planning-coordinator";
  "app-infra-promoter";
  "app-llm-advisor";
  "mcp-work-coordinator";
  "mcp-knowledge-graph";
  "teric-orchestrator"
]%string.

Definition KNOWN_EVENT_SOURCES : list jsstr := map js [
  "teric.orchestrator";
  "teric.code-review";
  "teric.e2e-tester";
  "teric.planning";
  "teric.infra-promoter"
]%string.

(** *** scanFile *)

(** [array.forEach(f)] where [f] updates the state it closes over. *)
Definition forEach {A St : Type} (l : list A) (f : A -> St -> St) (s : St) : St :=
  fold_left (fun s a => f a s) l s.

(** [array.forEach((x, index) => ...)] *)
Fixpoint forEachIndexed {A St : Type} (l : list A) (index : nat)
    (f : A -> nat -> St -> St) (s : St) : St :=
  match l with
  | [] => s
  | a :: l' => forEachIndexed l' (S index) f (f a index s)
  end.

(** The two arrays [violations] and [warnings] that [scanFile] fills. *)
Definition Findings : Type := list Finding * list Finding.

(** The class of the three quote characters, as pattern text. *)
Definition quoteClass : jsstr := js "['" ++ [dquote] ++ js "`]".

(** One or more of: single quote, double quote, white space, colon. *)
Definition separators : jsstr := js "['" ++ [dquote] ++ js "\s:]+".

Definition tablePattern (tableName : jsstr) : jsstr :=
  quoteClass ++ replaceAllChar 45 (js "[-]?") tableName ++ quoteClass.

Definition invokePattern (funcName : jsstr) : jsstr :=
  js "FunctionName" ++ separators ++ quoteClass ++ funcName ++ quoteClass.

Definition sourcePattern (source : jsstr) : jsstr :=
  js "Source" ++ separators ++ quoteClass ++ source ++ quoteClass.

Definition checkTable (filePath line : jsstr) (lineNum : nat)
    (tableName : jsstr) (st : Findings) : Findings :=
  if regexTest (tablePattern tableName) (js "gi") line then
    if includes (js "/contracts/") filePath
       || includes (js ".test.") filePath
       || includes (js ".spec.") filePath
       || includes (js "__tests__") filePath
    then st
    else
      (fst st ++ [{|
         type := hardcoded_table_name;
         severity := sev_error;
         file := Some filePath;
         line := Some lineNum;
         message := JStr (js "Hardcoded table name '" ++ tableName
                          ++ js "' should use @teric/contracts");
         contract := Some (js "@teric/contracts/dynamodb/"
                           ++ replaceFirst (js "teric-agentic-") [] tableName);
         snippet := Some (substring0 100 (trim line));
         expected := None |}], snd st)
  else st.

Definition checkLambda (filePath line : jsstr) (lineNum : nat)
    (funcName : jsstr) (st : Findings) : Findings :=
  if regexTest (invokePattern funcName) (js "i") line then
    if includes (js "/contracts/") filePath
       || includes (js ".test.") filePath
       || includes (js ".spec.") filePath
    then st
    else
      (fst st ++ [{|
         type := hardcoded_lambda_name;
         severity := sev_error;
         file := Some filePath;
         line := Some lineNum;
         message := JStr (js "Hardcoded Lambda name '" ++ funcName
                          ++ js "' should use @teric/contracts");
         contract := Some (js "@teric/contracts/lambda/" ++ funcName);
         snippet := Some (substring0 100 (trim line));
         expected := None |}], snd st)
  else st.

Definition checkSource (filePath line : jsstr) (lineNum : nat)
    (source : jsstr) (st : Findings) : Findings :=
  if regexTest (sourcePattern source) (js "i") line then
    if includes (js "/contracts/") filePath
       || includes (js ".test.") filePath
       || includes (js ".spec.") filePath
    then st
    else
      (fst st, snd st ++ [{|
         type := hardcoded_event_source;
         severity := sev_warning;
         file := Some filePath;
         line := Some lineNum;
         message := JStr (js "EventBridge source '" ++ source
                          ++ js "' should use @teric/contracts");
         contract := Some (js "@teric/contracts/events/"
                           ++ replaceFirst (js "teric.") [] source);
         snippet := Some (substring0 100 (trim line));
         expected := None |}])
  else st.

Definition isComment (line : jsstr) : bool :=
  startsWith (js "//") (trim line)
  || startsWith (js "#") (trim line)
  || startsWith (js "*") (trim line).

(** The body of [lines.forEach((line, index) => ...)]. *)
Definition scanLine (filePath line : jsstr) (index : nat) (st : Findings) : Findings :=
  let lineNum := index + 1 in
  if isComment line then st
  else
    let st := forEach KNOWN_TABLE_PATTERNS (checkTable filePath line lineNum) st in
    let st := forEach KNOWN_LAMBDA_PATTERNS (checkLambda filePath line lineNum) st in
    forEach KNOWN_EVENT_SOURCES (checkSource filePath line lineNum) st.

Definition scanErrorWarning (filePath : jsstr) (e : JsError) : Finding :=
  {| type := scan_error;
     severity := sev_warning;
     file := Some filePath;
     line := Some 0;
     message := JStr (js "Could not scan file: " ++ errorMessage e);
     contract := None;
     snippet := None;
     expected := None |}.

Definition scanFile (w : World) (filePath : jsstr) : Findings :=
  match readFileSync w filePath with
  | Ok content =>
      forEachIndexed (split_lines content) 0 (scanLine filePath) ([], [])
  | Throw e => ([], [scanErrorWarning filePath e])
  end.

(** *** getSourceFiles *)

Definition defaultExtensions : list jsstr :=
  map js [".ts"; ".js"; ".tsx"; ".jsx"]%string.

Definition skippedDirectories : list jsstr :=
  map js ["node_modules"; "dist"; "build"; ".git"; "coverage"; ".next"; ".cache"]%string.

(** [path.join(dir, item.name)] *)
Definition pathJoin (dir name : jsstr) : jsstr := Path.join dir name.

(** One turn of the loop [for (const item of items)] of [getSourceFiles],
    the recursive call on a sub-directory included. *)
Fixpoint visitItem (w : World) (extensions : list jsstr) (dir : jsstr)
    (item : Dirent) : res (list jsstr) :=
  let fullPath := pathJoin dir (direntName item) in
  match item with
  | DirentDirectory name listing =>
      if negb (arrayIncludes skippedDirectories name) then
        if negb (existsSync w fullPath) then Ok []
        else
          match listing with
          | Throw e => Throw e
          | Ok items =>
              (fix visitAll (items : list Dirent) : res (list jsstr) :=
                 match items with
                 | [] => Ok []
                 | i :: rest =>
                     found <- visitItem w extensions fullPath i ;;
                     more <- visitAll rest ;;
                     Ok (found ++ more)
                 end) items
          end
      else Ok []
  | DirentFile name =>
      if existsb (fun ext => endsWith ext name) extensions then Ok [fullPath]
      else Ok []
  | DirentOther _ => Ok []
  end.

Fixpoint visitItems (w : World) (extensions : list jsstr) (dir : jsstr)
    (items : list Dirent) : res (list jsstr) :=
  match items with
  | [] => Ok []
  | i :: rest =>
      found <- visitItem w extensions dir i ;;
      more <- visitItems w extensions dir rest ;;
      Ok (found ++ more)
  end.

Definition getSourceFiles (w : World) (dir : jsstr) : res (list jsstr) :=
  if negb (existsSync w dir) then Ok []
  else
    items <- readdirSync w dir ;;
    visitItems w defaultExtensions dir items.

(** *** validateDeclaredContracts *)

Definition packageNotInstalled : Finding :=
  {| type := package_not_installed;
     severity := sev_warning;
     file := None;
     line := None;
     message := JStr (js "@teric/contracts package not installed - cannot validate contract declarations");
     contract := None;
     snippet := None;
     expected := None |}.

Definition invalidContractPath (path : jsstr) : Finding :=
  {| type := invalid_contract_path;
     severity := sev_warning;
     file := None;
     line := None;
     message := JStr (js "Invalid contract path: " ++ path);
     contract := None;
     snippet := None;
     expected := Some (js "@teric/contracts/dynamodb/<table-name>") |}.

(** The body of [for (const table of contracts.dynamodb.tables)]. *)
Definition checkDeclaredTable (table : JsValue) (warnings : list Finding)
    : res (list Finding) :=
  c <- getProp table (js "contract") ;;
  if truthy c then
    match c with
    | JStr path =>
        if negb (startsWith (js "@teric/contracts/") path)
        then Ok (warnings ++ [invalidContractPath path])
        else Ok warnings
    | _ => Throw (MkError (js "table.contract.startsWith is not a function"))
    end
  else Ok warnings.

Fixpoint checkDeclaredTables (tables : list JsValue) (warnings : list Finding)
    : res (list Finding) :=
  match tables with
  | [] => Ok warnings
  | table :: rest =>
      warnings' <- checkDeclaredTable table warnings ;;
      checkDeclaredTables rest warnings'
  end.

Definition validateDeclaredContracts (w : World) (contracts : JsValue)
    : res (list Finding) :=
  if negb (contractsResolvable w) then Ok [packageNotInstalled]
  else
    dynamodb <- getProp contracts (js "dynamodb") ;;
    tables <- getPropOpt dynamodb (js "tables") ;;
    if truthy tables then
      items <- iterate tables ;;
      checkDeclaredTables items []
    else Ok [].

(** *** parseContractsFile *)

Definition errorObject (msg : jsstr) : JsValue :=
  JObj [(js "error", JStr msg)].

Definition parseContractsFile (w : World) (configPath : jsstr) : JsValue :=
  if negb (existsSync w configPath) then
    errorObject (js "Config file not found: " ++ configPath)
  else
    match (content <- readFileSync w configPath ;; yamlLoad w content) with
    | Ok v => v
    | Throw e => errorObject (js "Failed to parse config: " ++ errorMessage e)
    end.

(** *** validate *)

Definition srcDirs : list jsstr :=
  map js ["src"; "lib"; "handlers"; "services"; "components"]%string.

(** [for (const dir of srcDirs) sourceFiles.push(...getSourceFiles(dir))] *)
Fixpoint collectSourceDirs (w : World) (dirs : list jsstr) (sourceFiles : list jsstr)
    : res (list jsstr) :=
  match dirs with
  | [] => Ok sourceFiles
  | dir :: rest =>
      found <- getSourceFiles w dir ;;
      collectSourceDirs w rest (sourceFiles ++ found)
  end.

Definition isRootSource (f : jsstr) : bool :=
  (endsWith (js ".ts") f || endsWith (js ".js") f)
  && negb (includes (js ".config") f)
  && negb (includes (js ".test") f).

(** The files of the root of the working directory that are scanned too. *)
Definition rootFiles (w : World) : res (list jsstr) :=
  if existsSync w (js ".") then
    items <- readdirSync w (js ".") ;;
    Ok (filter isRootSource (map direntName items))
  else Ok [].

(** [for (const filePath of sourceFiles)] : each file's findings are pushed
    on the report's arrays. *)
Definition scanEach (w : World) (sourceFiles : list jsstr) (st : Findings) : Findings :=
  fold_left
    (fun st filePath =>
       let '(violations, warnings) := scanFile w filePath in
       (fst st ++ violations, snd st ++ warnings))
    sourceFiles st.

Definition initialReport (w : World) (configFile : jsstr) (advisoryMode : bool) : Report :=
  {| passed := true;
     violations := [];
     warnings := [];
     summary := {| Summary.total := 0; Summary.errors := 0;
                   Summary.warnings := 0; Summary.filesScanned := 0 |};
     metadata := {| Metadata.configFile := configFile;
                    Metadata.advisoryMode := advisoryMode;
                    Metadata.timestamp := now w;
                    Metadata.version := js "1.0.0" |} |}.

Definition configErrorWarning (msg : JsValue) : Finding :=
  {| type := config_error;
     severity := sev_warning;
     file := None;
     line := None;
     message := msg;
     contract := None;
     snippet := None;
     expected := None |}.

(** The part of [validate] after the configuration was accepted, up to the
    finished report. *)
Definition buildReport (w : World) (advisoryMode : bool) (result : Report)
    (contracts : JsValue) : res Report :=
  declaredWarnings <- validateDeclaredContracts w contracts ;;
  fromDirs <- collectSourceDirs w srcDirs [] ;;
  fromRoot <- rootFiles w ;;
  let sourceFiles := fromDirs ++ fromRoot in
  let '(violations', warnings') :=
    scanEach w sourceFiles (violations result, warnings result ++ declaredWarnings) in
  let errors := List.length violations' in
  let warns := List.length warnings' in
  Ok {| passed := if Nat.ltb 0 (List.length violations')
                  then advisoryMode
                  else passed result;
        violations := violations';
        warnings := warnings';
        summary := {| Summary.total := errors + warns;
                      Summary.errors := errors;
                      Summary.warnings := warns;
                      Summary.filesScanned := List.length sourceFiles |};
        metadata := metadata result |}.

(** The whole run, for the two constants [configFile] and [advisoryMode]
    that the script reads from its command line. *)
Definition validate (w : World) (configFile : jsstr) (advisoryMode : bool) : Outcome :=
  let result := initialReport w configFile advisoryMode in
  let contracts := parseContractsFile w configFile in
  match getProp contracts (js "error") with
  | Throw e => {| stdout := []; exitCode := 1; uncaught := Some e |}
  | Ok err =>
      if truthy err then
        let result :=
          {| passed := passed result;
             violations := violations result;
             warnings := warnings result ++ [configErrorWarning err];
             summary := summary result;
             metadata := metadata result |} in
        {| stdout := [result]; exitCode := 0; uncaught := None |}
      else
        match buildReport w advisoryMode result contracts with
        | Throw e => {| stdout := []; exitCode := 1; uncaught := Some e |}
        | Ok result =>
            if negb advisoryMode && Nat.ltb 0 (List.length (violations result))
            then {| stdout := [result]; exitCode := 1; uncaught := None |}
            else {| stdout := [result]; exitCode := 0; uncaught := None |}
        end
  end.

End Scanner.
Import Scanner.

(* ================================================================= *)
(** ** Vocabulary of the statements *)

Definition quotes : list N := [squote; dquote; backtick].

Definition isQuote (c : N) : bool :=
  N.eqb c squote || N.eqb c dquote || N.eqb c backtick.

(** The spellings of a name with any subset of its hyphens left out. *)
Fixpoint hyphenVariants (name : jsstr) : list jsstr :=
  match name with
  | [] => [[]]
  | c :: rest =>
      let vs := hyphenVariants rest in
      if N.eqb c 45 then vs ++ map (cons c) vs else map (cons c) vs
  end.

(** Two lines that differ at most in the case of their ASCII letters. *)
Definition sameUpToCase (l1 l2 : jsstr) : Prop :=
  map asciiUpper l1 = map asciiUpper l2.

(** A finding without the quotation of the line it was found on. *)
Definition sansSnippet (f : Finding) : Finding :=
  {| type := type f; severity := severity f; file := file f; line := line f;
     message := message f; contract := contract f; snippet := None;
     expected := expected f |}.

(** The path tests made by the table-name check. *)
Definition contractOrTestPath (filePath : jsstr) : bool :=
  includes (js "/contracts/") filePath
  || includes (js ".test.") filePath
  || includes (js ".spec.") filePath
  || includes (js "__tests__") filePath.

(** The path tests made by the function-name and event-source checks. *)
Definition contractOrDotTestPath (filePath : jsstr) : bool :=
  includes (js "/contracts/") filePath
  || includes (js ".test.") filePath
  || includes (js ".spec.") filePath.

(** The registry entries whose pattern matches a line. *)
Definition tableHits (line : jsstr) : list jsstr :=
  filter (fun t => regexTest (tablePattern t) (js "gi") line) KNOWN_TABLE_PATTERNS.

Definition lambdaHits (line : jsstr) : list jsstr :=
  filter (fun t => regexTest (invokePattern t) (js "i") line) KNOWN_LAMBDA_PATTERNS.

Definition sourceHits (line : jsstr) : list jsstr :=
  filter (fun t => regexTest (sourcePattern t) (js "i") line) KNOWN_EVENT_SOURCES.

Definition tableViolation (filePath line : jsstr) (lineNum : nat) (tableName : jsstr) : Finding :=
  {| type := hardcoded_table_name;
     severity := sev_error;
     file := Some filePath;
     line := Some lineNum;
     message := JStr (js "Hardcoded table name '" ++ tableName
                      ++ js "' should use @teric/contracts");
     contract := Some (js "@teric/contracts/dynamodb/"
                       ++ replaceFirst (js "teric-agentic-") [] tableName);
     snippet := Some (substring0 100 (trim line));
     expected := None |}.

Definition lambdaViolation (filePath line : jsstr) (lineNum : nat) (funcName : jsstr) : Finding :=
  {| type := hardcoded_lambda_name;
     severity := sev_error;
     file := Some filePath;
     line := Some lineNum;
     message := JStr (js "Hardcoded Lambda name '" ++ funcName
                      ++ js "' should use @teric/contracts");
     contract := Some (js "@teric/contracts/lambda/" ++ funcName);
     snippet := Some (substring0 100 (trim line));
     expected := None |}.

Definition sourceWarning (filePath line : jsstr) (lineNum : nat) (source : jsstr) : Finding :=
  {| type := hardcoded_event_source;
     severity := sev_warning;
     file := Some filePath;
     line := Some lineNum;
     message := JStr (js "EventBridge source '" ++ source
                      ++ js "' should use @teric/contracts");
     contract := Some (js "@teric/contracts/events/"
                       ++ replaceFirst (js "teric.") [] source);
     snippet := Some (substring0 100 (trim line));
     expected := None |}.

(** What one line adds to the two arrays of [scanFile]. *)
Definition lineFindings (filePath line : jsstr) (index : nat) : Findings :=
  if isComment line then ([], [])
  else
    ((if contractOrTestPath filePath then []
      else map (tableViolation filePath line (index + 1)) (tableHits line))
     ++ (if contractOrDotTestPath filePath then []
         else map (lambdaViolation filePath line (index + 1)) (lambdaHits line)),
     if contractOrDotTestPath filePath then []
     else map (sourceWarning filePath line (index + 1)) (sourceHits line)).

(** A class that holds quote characters only. *)
Definition quoteItems (items : list ClassItem) : bool :=
  forallb (fun it => match it with CChar p => isQuote p | CSpace => false end) items.

(** Term lists that must read a quote character first. *)
Definition quoteFirst (r : list Term) : bool :=
  match r with
  | (AClass items, One) :: _ => quoteItems items
  | _ => false
  end.

(** Term lists that must read a quote character last. *)
Fixpoint quoteLast (r : list Term) : bool :=
  match r with
  | [] => false
  | t :: r' =>
      match r' with
      | [] => quoteFirst [t]
      | _ :: _ => quoteLast r'
      end
  end.

(** A text without any quote character. *)
Definition noQuote (s : jsstr) : bool := forallb (fun c => negb (isQuote c)) s.

(** What is checked, for a table name [t] and the pattern of a table name
    [t'], to conclude that no quoted extension of [t] matches [t'] : the
    pattern opens with a quote, goes on and closes with a quote, and after
    an opening quote and [t] it is either dead or waits for the closing
    quote. *)
Definition extensionCheck (t t' : jsstr) : bool :=
  match newRegExp (tablePattern t') (js "gi") with
  | None => false
  | Some re =>
      ignoreCase re
      && quoteFirst (terms re)
      && noQuote t
      && quoteLast (tl (terms re))
      && forallb (fun q =>
                    let '(done, rs) := run true [terms re] (q :: t) in
                    negb done && forallb quoteFirst rs) quotes
  end.

(** What is checked, for a table name [t], to conclude that each of its
    hyphen variants between two quotes matches its pattern. *)
Definition variantCheck (t : jsstr) : bool :=
  match newRegExp (tablePattern t) (js "gi") with
  | None => false
  | Some re =>
      forallb (fun v =>
        forallb (fun q1 =>
          forallb (fun q2 =>
            matchHere (ignoreCase re) (terms re) (q1 :: v ++ [q2])) quotes) quotes)
        (hyphenVariants t)
  end.

(** The configuration file is absent, or reading or parsing it throws. *)
Definition configUnavailable (w : World) (configFile : jsstr) : Prop :=
  existsSync w configFile = false
  \/ (exists e, readFileSync w configFile = Throw e)
  \/ (exists content e,
        readFileSync w configFile = Ok content /\ yamlLoad w content = Throw e).

(** *** Sample lines *)

Definition tableLine : jsstr := js "const tableName = 'teric-agentic-work-items';".
Definition lambdaLine : jsstr := js "FunctionName: 'app-code-review'".
Definition sourceLine : jsstr := js "Source: 'teric.orchestrator'".

(** The same names in other letter cases. *)
Definition upperTableLine : jsstr := js "const t = 'TERIC-AGENTIC-WORK-ITEMS';".

Definition upperLambdaLine : jsstr :=
  js "functionname: " ++ [dquote] ++ js "APP-CODE-REVIEW" ++ [dquote].

Definition upperSourceLine : jsstr := js "SOURCE: `Teric.Orchestrator`".

(** *** Sample worlds *)

Definition enoent (p : jsstr) : JsError :=
  MkError (js "ENOENT: no such file or directory, open '" ++ p ++ js "'").

Definition enotdir (p : jsstr) : JsError :=
  MkError (js "ENOTDIR: not a directory, scandir '" ++ p ++ js "'").

Fixpoint assoc {A : Type} (key : jsstr) (l : list (jsstr * A)) : option A :=
  match l with
  | [] => None
  | (k, v) :: rest => if eqb k key then Some v else assoc key rest
  end.

(** A world given by the text of its files, the listing of its directories
    and the value the YAML loader returns. *)
Definition worldOf (files : list (jsstr * jsstr))
    (dirs : list (jsstr * res (list Dirent))) (parsed : res JsValue) : World :=
  {| existsSync := fun p =>
       match assoc p files, assoc p dirs with
       | None, None => false
       | _, _ => true
       end;
     readFileSync := fun p =>
       match assoc p files with
       | Some text => Ok text
       | None => Throw (enoent p)
       end;
     readdirSync := fun p =>
       match assoc p dirs with
       | Some l => l
       | None => Throw (enoent p)
       end;
     yamlLoad := fun _ => parsed;
     contractsResolvable := false;
     now := js "2025-01-01T00:00:00.000Z" |}.

Definition configName : jsstr := js "infra.contracts.yaml".

Definition minimalConfig : JsValue :=
  JObj [(js "contract_version", JStr (js "1.0"));
        (js "repository", JStr (js "teric-io/test-repo"))].

(** No file at all. *)
Definition bareWorld : World := worldOf [] [] (Ok minimalConfig).

(** A configuration file and one source file with a hardcoded table name. *)
Definition fixtureWorld : World :=
  worldOf
    [(configName, js "contract_version: 1.0");
     (js "src/handler.ts", js "const table = 'teric-agentic-work-items';")]
    [(js "src", Ok [DirentFile (js "handler.ts")]);
     (js ".", Ok [DirentFile configName;
                  DirentDirectory (js "src") (Ok [DirentFile (js "handler.ts")])])]
    (Ok minimalConfig).

(** A configuration file without any document in it : the YAML loader
    returns [undefined]. *)
Definition emptyConfigWorld : World :=
  worldOf [(configName, [])] [(js ".", Ok [DirentFile configName])] (Ok JUndefined).

(** A working directory in which [src] is a regular file. *)
Definition srcIsFileWorld : World :=
  worldOf [(configName, js "contract_version: 1.0"); (js "src", js "notes")]
    [(js "src", Throw (enotdir (js "src")));
     (js ".", Ok [DirentFile configName; DirentFile (js "src")])]
    (Ok minimalConfig).

(** A source file under a [__tests__] directory. *)
Definition testsDirWorld (text : jsstr) : World :=
  worldOf
    [(configName, js "contract_version: 1.0");
     (js "src/__tests__/invoker.ts", text)]
    [(js "src", Ok [DirentDirectory (js "__tests__") (Ok [DirentFile (js "invoker.ts")])]);
     (js "src/__tests__", Ok [DirentFile (js "invoker.ts")]);
     (js ".", Ok [DirentFile configName;
                  DirentDirectory (js "src")
                    (Ok [DirentDirectory (js "__tests__") (Ok [DirentFile (js "invoker.ts")])])])]
    (Ok minimalConfig).

(* ================================================================= *)
(** ** Vocabulary of the further properties *)

(** The pattern compiles to terms that read a quote character last. *)
Definition closesWithQuote (pattern flags : jsstr) : bool :=
  match newRegExp pattern flags with
  | Some re => quoteLast (terms re)
  | None => true
  end.

(** The terms open with the letters of [lit], one by one. *)
Fixpoint literalPrefix (lit : jsstr) (r : list Term) : bool :=
  match lit with
  | [] => true
  | c :: lit' =>
      match r with
      | (AChar p, One) :: r' => N.eqb p c && literalPrefix lit' r'
      | _ => false
      end
  end.

(** The pattern is case-insensitive and opens with the letters of
    [keyword]. *)
Definition opensWith (keyword pattern flags : jsstr) : bool :=
  match newRegExp pattern flags with
  | Some re => ignoreCase re && literalPrefix keyword (terms re)
  | None => true
  end.

(** The line holds the keyword, in any letter case. *)
Definition mentions (keyword line : jsstr) : bool :=
  includes (map asciiUpper keyword) (map asciiUpper line).

(** The characters that may stand between the keyword and the name. *)
Definition isSeparator (c : N) : bool :=
  N.eqb c squote || N.eqb c dquote || isSpace c || N.eqb c 58.

(** [v] spells [name] up to letter case, with any character that is not a
    line terminator where [name] has a dot. *)
Definition spells (name v : jsstr) : Prop :=
  Forall2 (fun p c => if N.eqb p 46 then isLineTerminator c = false
                      else asciiUpper c = asciiUpper p) name v.

(** The terms are those of [name] taken literally, a dot being the
    wildcard, followed by a class that accepts the three quotes. *)
Fixpoint nameThenQuote (name : jsstr) (r : list Term) : bool :=
  match name with
  | [] =>
      match r with
      | [(a, One)] => forallb (atomMatches true a) quotes
      | _ => false
      end
  | p :: name' =>
      match r with
      | (AAny, One) :: r' => N.eqb p 46 && nameThenQuote name' r'
      | (AChar c, One) :: r' => negb (N.eqb p 46) && N.eqb c p && nameThenQuote name' r'
      | _ => false
      end
  end.

(** The terms are: the keyword, one or more separators, a quote, the name,
    a quote. *)
Fixpoint keywordShape (keyword name : jsstr) (r : list Term) : bool :=
  match keyword with
  | [] =>
      match r with
      | (sep, Plus) :: (q, One) :: r' =>
          forallb (atomMatches true q) quotes
          && forallb (fun it => match sep with
                                | AClass items => existsb (fun x =>
                                    match x, it with
                                    | CChar a, CChar b => N.eqb a b
                                    | CSpace, CSpace => true
                                    | _, _ => false
                                    end) items
                                | _ => false
                                end) [CChar squote; CChar dquote; CSpace; CChar 58]
          && nameThenQuote name r'
      | _ => false
      end
  | c :: keyword' =>
      match r with
      | (AChar p, One) :: r' => N.eqb p c && keywordShape keyword' name r'
      | _ => false
      end
  end.

Definition hasKeywordShape (keyword name pattern flags : jsstr) : bool :=
  match newRegExp pattern flags with
  | Some re => ignoreCase re && keywordShape keyword name (terms re)
  | None => false
  end.

(** What the lines from the one of index [index] on add to the arrays. *)
Fixpoint linesFindings (filePath : jsstr) (lines : list jsstr) (index : nat) : Findings :=
  match lines with
  | [] => ([], [])
  | l :: rest =>
      (fst (lineFindings filePath l index) ++ fst (linesFindings filePath rest (S index)),
       snd (lineFindings filePath l index) ++ snd (linesFindings filePath rest (S index)))
  end.

(** The files that an enumeration of [items], listed in [dir], reaches: the
    regular files with one of the extensions, in [dir] or below it through
    directories that exist and are not on the deny list. *)
Inductive reaches (w : World) (extensions : list jsstr)
  : jsstr -> list Dirent -> jsstr -> Prop :=
| reaches_file dir items name :
    In (DirentFile name) items ->
    existsb (fun ext => endsWith ext name) extensions = true ->
    reaches w extensions dir items (pathJoin dir name)
| reaches_below dir items name below f :
    In (DirentDirectory name (Ok below)) items ->
    arrayIncludes skippedDirectories name = false ->
    existsSync w (pathJoin dir name) = true ->
    reaches w extensions (pathJoin dir name) below f ->
    reaches w extensions dir items f.

(** The number of line feeds of a text. *)
Definition lineFeeds (s : jsstr) : nat := List.length (filter (N.eqb newline) s).

(** The finding carries the line number [n]. *)
Definition onLine (n : nat) (f : Finding) : bool :=
  match Scanner.line f with
  | Some m => Nat.eqb m n
  | None => false
  end.

(** The text before a line of a file: nothing, or a text that ends with a
    line feed. *)
Definition startsLine (prefix : jsstr) : Prop :=
  prefix = [] \/ exists p, prefix = p ++ [newline].

(** The text after a line of a file: nothing, or a text that starts with a
    line feed. *)
Definition endsLine (suffix : jsstr) : Prop :=
  suffix = [] \/ exists s, suffix = newline :: s.

(** An indented line of more than 100 characters with a hardcoded table
    name, and a file that holds it on its fifth line. *)
Definition longTableLine : jsstr :=
  js "   const workItems = process.env.WORK_ITEMS_TABLE || 'teric-agentic-work-items'; // falls back to the shared table in local runs  ".

Definition fifthLineFile : jsstr :=
  [newline; newline; newline; newline] ++ longTableLine.

(** A file with the table line on its fifth line and a line after it, and a
    file whose fifth line is the long line. *)
Definition lateFile : jsstr :=
  [newline; newline; newline; newline] ++ tableLine ++ newline :: lambdaLine.

Definition lateWorld : World :=
  worldOf [(js "src/late.ts", lateFile)] [] (Ok minimalConfig).

Definition longWorld : World :=
  worldOf [(js "src/long.ts", fifthLineFile)] [] (Ok minimalConfig).


(** A text without the separator. *)
Definition sepFree (sep : N) (s : jsstr) : bool :=
  forallb (fun x => negb (N.eqb x sep)) s.

(** A file extension that a path keeps when it is normalised: it holds no
    slash and its last character is not a dot. *)
Definition plainSuffix (ext : jsstr) : bool :=
  match rev ext with
  | c :: _ => negb (N.eqb c 46) && forallb (fun x => negb (N.eqb x Path.slash)) ext
  | [] => false
  end.

(** A declared table on which the check of its contract path does not
    throw: not [undefined] or [null], and with a [contract] that is a string
    or falsy. *)
Definition declaredTableOk (table : JsValue) : bool :=
  match table with
  | JUndefined | JNull => false
  | JObj props =>
      match lookup (js "contract") props with
      | JStr _ => true
      | v => negb (truthy v)
      end
  | _ => true
  end.

(** The contract paths of the declared tables that get a warning: the
    non-empty strings without the prefix of the package. *)
Fixpoint invalidPaths (tables : list JsValue) : list jsstr :=
  match tables with
  | [] => []
  | table :: rest =>
      match table with
      | JObj props =>
          match lookup (js "contract") props with
          | JStr (c :: path) =>
              if startsWith (js "@teric/contracts/") (c :: path) then invalidPaths rest
              else (c :: path) :: invalidPaths rest
          | _ => invalidPaths rest
          end
      | _ => invalidPaths rest
      end
  end.

(** A world in which the contracts package resolves and the configuration
    declares the given tables. *)
Definition declaringWorld (tables : JsValue) : World :=
  {| existsSync := existsSync fixtureWorld;
     readFileSync := readFileSync fixtureWorld;
     readdirSync := readdirSync fixtureWorld;
     yamlLoad := fun _ => Ok (JObj [(js "dynamodb", JObj [(js "tables", tables)])]);
     contractsResolvable := true;
     now := now fixtureWorld |}.

(** No two texts of the list are equal. *)
Fixpoint distinct (l : list jsstr) : bool :=
  match l with
  | [] => true
  | x :: rest => negb (existsb (eqb x) rest) && distinct rest
  end.


(** A working directory that holds the configuration file and a
    configuration script, and no source directory. *)
Definition emptyConfigRootWorld : World :=
  worldOf [(configName, js "contract_version: 1.0"); (js "jest.config.js", js "module.exports = {};")]
    [(js ".", Ok [DirentFile configName; DirentFile (js "jest.config.js")])]
    (Ok minimalConfig).

(** A tree asked for under the name [./src]. *)
Definition dotSrcWorld : World :=
  worldOf [(js "src/handler.ts", tableLine)]
    [(js "./src", Ok [DirentFile (js "handler.ts"); DirentFile (js "README.md")])]
    (Ok minimalConfig).

Definition declaredTable (path : jsstr) : JsValue :=
  JObj [(js "name", JStr (js "work-items")); (js "contract", JStr path)].

(* ================================================================= *)
(** ** The file reader of [architecture-extractor.mjs] *)

Module Extractor.

(** [lines.join("\n")] *)
Fixpoint joinLines (lines : list jsstr) : jsstr :=
  match lines with
  | [] => []
  | l :: rest =>
      match rest with
      | [] => l
      | _ :: _ => l ++ newline :: joinLines rest
      end
  end.

(** A length as the template literal prints it. *)
Definition decimal (n : nat) : jsstr :=
  js (NilZero.string_of_uint (Nat.to_uint n)).

Definition truncationNotice : jsstr := newline :: js "... (truncated)".

(** [readFileIfExists(filePath, maxLines)], where [resolve] stands for
    [path.join(SOURCE_REPO_PATH, .)] : the value returned ([null] is [None])
    with the lines written by [console.warn]. *)
Definition readFileIfExists (w : World) (resolve : jsstr -> jsstr)
    (filePath : jsstr) (maxLines : option nat) : res (option jsstr * list jsstr) :=
  let fullPath := resolve filePath in
  if negb (existsSync w fullPath) then Ok (None, [])
  else
    content <- readFileSync w fullPath ;;
    let content :=
      match maxLines with
      | Some (S n) => joinLines (firstn (S n) (split_lines content))
      | _ => content
      end in
    if Nat.ltb 8000 (List.length content) then
      Ok (Some (firstn 8000 content ++ truncationNotice),
          [js "[architecture-extractor] Truncating " ++ filePath ++ js " ("
           ++ decimal (List.length content) ++ js " chars > 8000)"])
    else Ok (Some content, []).

End Extractor.
Import Extractor.

(** The text, cut after its first [n] lines when a positive limit [n] is
    given. *)
Definition lineCapped (maxLines : option nat) (content : jsstr) : jsstr :=
  match maxLines with
  | Some (S n) => joinLines (firstn (S n) (split_lines content))
  | _ => content
  end.

(** A file of two lines whose first line has 9000 characters, in the
    directory [repo]. *)
Definition bigFile : jsstr := repeat 97%N 9000 ++ newline :: js "tail".

Definition bigWorld : World :=
  worldOf [(js "repo/big.txt", bigFile)] [] (Ok minimalConfig).

(** Settles comparisons of a code unit with constants that [lia] refutes. *)
Ltac decide_eqb :=
  repeat match goal with
         | |- context [N.eqb ?a ?b] =>
             replace (N.eqb a b) with false by (symmetry; apply N.eqb_neq; lia)
         | |- context [N.leb ?a ?b] =>
             replace (N.leb a b) with false by (symmetry; apply N.leb_gt; lia)
         end.

(* ================================================================= *)
(** ** Properties of the matcher *)

Unset Implicit Arguments.

(** *** The primitives on small inputs *)

Example split_lines_ex :
  split_lines (js "a" ++ [newline] ++ js "bc" ++ [newline]) = [js "a"; js "bc"; []].
Proof. reflexivity. Qed.

Example trim_ex : trim (js "  x y ") = js "x y".
Proof. reflexivity. Qed.

Example pathJoin_ex :
  map (fun p => pathJoin (fst p) (snd p))
    [(js "src", js "handler.ts"); (js "./src", js "handler.ts");
     (js ".", js "index.js"); (js "src/", js "lib"); (js "src//lib/", js "a.ts");
     (js "/repo", js "src"); (js "src", js ".."); (js "..", js "lib")]
  = [js "src/handler.ts"; js "src/handler.ts"; js "index.js"; js "src/lib";
     js "src/lib/a.ts"; js "/repo/src"; js "."; js "../lib"].
Proof. reflexivity. Qed.

Example replaceFirst_ex :
  replaceFirst (js "teric.") [] (js "teric.e2e-tester") = js "e2e-tester".
Proof. reflexivity. Qed.

Example includes_ex :
  includes (js ".test.") (js "src/handler.test.ts") = true
  /\ includes (js "__tests__") (js "src/handler.ts") = false.
Proof. split; reflexivity. Qed.

Example tablePattern_ex :
  tablePattern (js "a-b") = js "['" ++ [dquote] ++ js "`]a[-]?b['" ++ [dquote] ++ js "`]".
Proof. reflexivity. Qed.

Example compile_table_ex :
  compile (tablePattern (js "a-b"))
  = Some [(AClass [CChar 39; CChar 34; CChar 96], One); (AChar 97, One);
          (AClass [CChar 45], Opt); (AChar 98, One);
          (AClass [CChar 39; CChar 34; CChar 96], One)]%N.
Proof. reflexivity. Qed.

Example compile_source_ex :
  compile (sourcePattern (js "a.b"))
  = Some [(AChar 83, One); (AChar 111, One); (AChar 117, One); (AChar 114, One);
          (AChar 99, One); (AChar 101, One);
          (AClass [CChar 39; CChar 34; CSpace; CChar 58], Plus);
          (AClass [CChar 39; CChar 34; CChar 96], One);
          (AChar 97, One); (AAny, One); (AChar 98, One);
          (AClass [CChar 39; CChar 34; CChar 96], One)]%N.
Proof. reflexivity. Qed.

(** Every pattern the script builds lies in the fragment that [compile]
    reads. *)
Lemma registry_patterns_compile :
  forallb (fun t => match newRegExp (tablePattern t) (js "gi") with
                    | Some _ => true | None => false end) KNOWN_TABLE_PATTERNS
  && forallb (fun t => match newRegExp (invokePattern t) (js "i") with
                       | Some _ => true | None => false end) KNOWN_LAMBDA_PATTERNS
  && forallb (fun t => match newRegExp (sourcePattern t) (js "i") with
                       | Some _ => true | None => false end) KNOWN_EVENT_SOURCES
  = true.
Proof. vm_compute. reflexivity. Qed.

(** A run over the fixture tree, in blocking and in advisory mode. *)
Example validate_fixture_ex :
  map (fun r => (passed r, map type (violations r), map type (warnings r), summary r))
    (stdout (validate fixtureWorld configName false))
  = [(false, [hardcoded_table_name], [package_not_installed],
      {| Summary.total := 2; Summary.errors := 1; Summary.warnings := 1;
         Summary.filesScanned := 1 |})]
  /\ exitCode (validate fixtureWorld configName false) = 1%Z
  /\ map passed (stdout (validate fixtureWorld configName true)) = [true]
  /\ exitCode (validate fixtureWorld configName true) = 0%Z.
Proof. vm_compute. repeat split; reflexivity. Qed.

Section Matcher.

Variable ic : bool.

Lemma matchHere_one_unfold (a : Atom) (r : list Term) (s : jsstr) :
  matchHere ic ((a, One) :: r) s =
  match s with
  | c :: s' => atomMatches ic a c && matchHere ic r s'
  | [] => false
  end.
Proof. reflexivity. Qed.

Lemma matchHere_opt_unfold (a : Atom) (r : list Term) (s : jsstr) :
  matchHere ic ((a, Opt) :: r) s =
  match s with
  | c :: s' => atomMatches ic a c && matchHere ic r s'
  | [] => false
  end || matchHere ic r s.
Proof. reflexivity. Qed.

Lemma matchHere_plus_unfold (a : Atom) (r : list Term) (s : jsstr) :
  matchHere ic ((a, Plus) :: r) s =
  match s with
  | c :: s' => atomMatches ic a c && (matchHere ic ((a, Plus) :: r) s' || matchHere ic r s')
  | [] => false
  end.
Proof. destruct s; reflexivity. Qed.

(** [matchHere] read one character at a time. *)
Lemma matchHere_step (r : list Term) (s : jsstr) :
  matchHere ic r s =
  nullable r ||
  match s with
  | [] => false
  | c :: s' => existsb (fun r' => matchHere ic r' s') (step ic c r)
  end.
Proof.
  revert s. induction r as [|[a q] r IH]; intros s.
  - reflexivity.
  - destruct q.
    + cbn [nullable forallb snd andb orb step]. destruct s as [|c s']; [reflexivity|].
      cbn [matchHere]. destruct (atomMatches ic a c); cbn [andb existsb]; [|reflexivity].
      now rewrite orb_false_r.
    + change (matchHere ic ((a, Opt) :: r) s)
        with (match s with
              | c :: s' => atomMatches ic a c && matchHere ic r s'
              | [] => false
              end || matchHere ic r s).
      change (nullable ((a, Opt) :: r)) with (nullable r).
      rewrite (IH s). destruct s as [|c s']; [reflexivity|].
      cbn [step]. rewrite existsb_app.
      destruct (atomMatches ic a c); cbn [andb existsb orb].
      * rewrite orb_false_r.
        destruct (matchHere ic r s'), (nullable r); reflexivity.
      * reflexivity.
    + rewrite matchHere_plus_unfold.
      cbn [nullable forallb snd andb orb step]. destruct s as [|c s']; [reflexivity|].
      destruct (atomMatches ic a c); cbn [andb existsb]; [|reflexivity].
      now rewrite orb_false_r.
Qed.

Lemma nullable_matchHere (r : list Term) (s : jsstr) :
  nullable r = true -> matchHere ic r s = true.
Proof. intros H. rewrite matchHere_step, H. reflexivity. Qed.

Lemma existsb_flat_map {A B : Type} (f : B -> bool) (g : A -> list B) (l : list A) :
  existsb f (flat_map g l) = existsb (fun a => existsb f (g a)) l.
Proof.
  induction l as [|a l IH]; [reflexivity|].
  cbn [flat_map existsb]. now rewrite existsb_app, IH.
Qed.

Lemma existsb_ext_in {A : Type} (f g : A -> bool) (l : list A) :
  (forall a, In a l -> f a = g a) -> existsb f l = existsb g l.
Proof.
  induction l as [|a l IH]; intros H; [reflexivity|].
  cbn [existsb]. rewrite (H a (or_introl eq_refl)), IH; [reflexivity|].
  intros b Hb. apply H. now right.
Qed.

(** Reading a known beginning [w] of the input with [run]. *)
Lemma run_matchHere (w s : jsstr) (rs : list (list Term)) :
  existsb (fun r => matchHere ic r (w ++ s)) rs =
  (fst (run ic rs w) || existsb (fun r => matchHere ic r s) (snd (run ic rs w))).
Proof.
  revert rs. induction w as [|c w IH]; intros rs.
  - reflexivity.
  - cbn [run app]. destruct (existsb nullable rs) eqn:Hn.
    + cbn [fst orb]. apply existsb_exists in Hn as (r & Hin & Hr).
      apply existsb_exists. exists r. split; [assumption|].
      now apply nullable_matchHere.
    + rewrite <- IH, existsb_flat_map.
      apply existsb_ext_in. intros r Hin.
      rewrite matchHere_step.
      assert (Hr : nullable r = false).
      { destruct (nullable r) eqn:E; [|reflexivity].
        assert (existsb nullable rs = true) by (apply existsb_exists; eauto).
        congruence. }
      now rewrite Hr.
Qed.

(** A match is not lost when the input is extended. *)
Lemma matchHere_app (r : list Term) (s t : jsstr) :
  matchHere ic r s = true -> matchHere ic r (s ++ t) = true.
Proof.
  revert s. induction r as [|[a q] r IH]; intros s.
  - reflexivity.
  - destruct q.
    + destruct s as [|c s']; cbn [matchHere app]; [discriminate|].
      intros H. apply andb_true_iff in H as [Ha Hk].
      now rewrite Ha, (IH _ Hk).
    + change (matchHere ic ((a, Opt) :: r)) with
        (fun s => match s with
                  | c :: s' => atomMatches ic a c && matchHere ic r s'
                  | [] => false
                  end || matchHere ic r s).
      cbv beta. intros H. apply orb_true_iff in H as [H|H].
      * destruct s as [|c s']; [discriminate|]. cbn [app].
        apply andb_true_iff in H as [Ha Hk].
        now rewrite Ha, (IH _ Hk).
      * rewrite (IH _ H). apply orb_true_r.
    + induction s as [|c s' IHs]; rewrite matchHere_plus_unfold; [discriminate|].
      intros H. apply andb_true_iff in H as [Ha Hk].
      cbn [app]. rewrite matchHere_plus_unfold, Ha. cbn [andb].
      apply orb_true_iff in Hk as [Hk|Hk].
      * apply orb_true_iff. left. exact (IHs Hk).
      * apply orb_true_iff. right. exact (IH _ Hk).
Qed.

Lemma search_here (r : list Term) (s : jsstr) :
  matchHere ic r s = true -> search ic r s = true.
Proof. intros H. destruct s; cbn [search]; now rewrite H. Qed.

Lemma search_cons (r : list Term) (c : N) (s : jsstr) :
  search ic r (c :: s) = matchHere ic r (c :: s) || search ic r s.
Proof. reflexivity. Qed.

Lemma search_app_l (r : list Term) (p s : jsstr) :
  search ic r s = true -> search ic r (p ++ s) = true.
Proof.
  intros H. induction p as [|c p IH]; [assumption|].
  cbn [app]. rewrite search_cons, IH. apply orb_true_r.
Qed.

(** A match found between a left and a right context. *)
Lemma search_infix (r : list Term) (p s t : jsstr) :
  matchHere ic r s = true -> search ic r (p ++ s ++ t) = true.
Proof.
  intros H. apply search_app_l, search_here, matchHere_app, H.
Qed.

End Matcher.

(* ================================================================= *)
(** ** Table patterns : hyphens and extensions *)

Lemma isQuote_cases (c : N) :
  isQuote c = true -> c = squote \/ c = dquote \/ c = backtick.
Proof.
  unfold isQuote. intros H.
  apply orb_true_iff in H as [H|H]; [apply orb_true_iff in H as [H|H]|];
    apply N.eqb_eq in H; auto.
Qed.

Lemma isQuote_In (c : N) : isQuote c = true -> In c quotes.
Proof.
  intros H. destruct (isQuote_cases _ H) as [-> | [-> | ->]]; cbn; auto.
Qed.

Lemma asciiUpper_cases (c : N) :
  asciiUpper c = c \/ (97 <= c <= 122 /\ asciiUpper c = c - 32)%N.
Proof.
  unfold asciiUpper.
  destruct (N.leb_spec 97 c); destruct (N.leb_spec c 122); cbn [andb]; auto.
Qed.

Lemma charMatches_quote (ic : bool) (p c : N) :
  isQuote p = true -> charMatches ic p c = true -> isQuote c = true.
Proof.
  intros Hp H. unfold charMatches, canonicalize in H.
  apply N.eqb_eq in H.
  assert (Hpc : p = c).
  { destruct ic; [|assumption].
    destruct (isQuote_cases _ Hp) as [-> | [-> | ->]];
      destruct (asciiUpper_cases c) as [E|[Hr E]]; rewrite E in H;
      unfold squote, dquote, backtick in *; cbn in H; lia. }
  now subst.
Qed.

Lemma quoteItems_reject (ic : bool) (items : list ClassItem) (c : N) :
  quoteItems items = true -> isQuote c = false ->
  existsb (fun it => itemMatches ic it c) items = false.
Proof.
  intros Hq Hc. induction items as [|it items IH]; [reflexivity|].
  cbn [quoteItems forallb] in Hq. apply andb_true_iff in Hq as [Hit Hq].
  cbn [existsb]. rewrite (IH Hq), orb_false_r.
  destruct it as [p|]; [|discriminate]. cbn [itemMatches].
  destruct (charMatches ic p c) eqn:E; [|reflexivity].
  rewrite (charMatches_quote _ _ _ Hit E) in Hc. discriminate.
Qed.

(** A pattern that opens with the quote class does not start on any other
    character. *)
Lemma quoteFirst_reject (ic : bool) (r : list Term) (c : N) (s : jsstr) :
  quoteFirst r = true -> isQuote c = false -> matchHere ic r (c :: s) = false.
Proof.
  intros Hq Hc. destruct r as [|[a q] r]; [discriminate|].
  destruct a as [p| |items], q; try discriminate.
  cbn [quoteFirst] in Hq. cbn [matchHere atomMatches].
  now rewrite (quoteItems_reject ic items c Hq Hc).
Qed.

Lemma quoteFirst_nil (ic : bool) (r : list Term) :
  quoteFirst r = true -> matchHere ic r [] = false.
Proof.
  intros Hq. destruct r as [|[a q] r]; [discriminate|].
  destruct a, q; try discriminate. reflexivity.
Qed.

Lemma search_skip (ic : bool) (r : list Term) (w s : jsstr) :
  quoteFirst r = true -> noQuote w = true ->
  search ic r (w ++ s) = search ic r s.
Proof.
  intros Hq. induction w as [|c w IH]; intros Hw; [reflexivity|].
  cbn [noQuote forallb] in Hw. apply andb_true_iff in Hw as [Hc Hw].
  apply negb_true_iff in Hc.
  cbn [app]. rewrite search_cons, (quoteFirst_reject ic r c (w ++ s) Hq Hc).
  now apply IH.
Qed.

Lemma quoteFirst_states_reject (ic : bool) (rs : list (list Term)) (c : N) (s : jsstr) :
  forallb quoteFirst rs = true -> isQuote c = false ->
  existsb (fun r => matchHere ic r (c :: s)) rs = false.
Proof.
  intros Hrs Hc. induction rs as [|r rs IH]; [reflexivity|].
  cbn [forallb] in Hrs. apply andb_true_iff in Hrs as [Hr Hrs].
  cbn [existsb]. now rewrite (quoteFirst_reject ic r c s Hr Hc), (IH Hrs).
Qed.

(** A pattern that closes with the quote class matches inside no text that
    is free of quotes. *)
Lemma quoteLast_reject (ic : bool) (r : list Term) (s : jsstr) :
  quoteLast r = true -> noQuote s = true -> matchHere ic r s = false.
Proof.
  revert s. induction r as [|[a q] r IH]; intros s Hr Hs; [discriminate|].
  destruct r as [|t' r'].
  - cbn [quoteLast] in Hr. destruct s as [|c s].
    + now apply quoteFirst_nil.
    + cbn [noQuote forallb] in Hs. apply andb_true_iff in Hs as [Hc _].
      apply negb_true_iff in Hc. now apply quoteFirst_reject.
  - change (quoteLast ((a, q) :: t' :: r')) with (quoteLast (t' :: r')) in Hr.
    pose proof (fun s => IH s Hr) as IH'.
    destruct q.
    + destruct s as [|c s]; [reflexivity|].
      cbn [noQuote forallb] in Hs. apply andb_true_iff in Hs as [_ Hs].
      rewrite matchHere_one_unfold, (IH' s Hs). apply andb_false_r.
    + rewrite matchHere_opt_unfold, (IH' s Hs), orb_false_r.
      destruct s as [|c s]; [reflexivity|].
      cbn [noQuote forallb] in Hs. apply andb_true_iff in Hs as [_ Hs].
      rewrite (IH' s Hs). apply andb_false_r.
    + induction s as [|c s IHs]; [reflexivity|].
      cbn [noQuote forallb] in Hs. apply andb_true_iff in Hs as [_ Hs].
      rewrite matchHere_plus_unfold, (IHs Hs), (IH' s Hs). apply andb_false_r.
Qed.

Lemma search_noQuote (ic : bool) (r : list Term) (s : jsstr) :
  quoteFirst r = true -> noQuote s = true -> search ic r s = false.
Proof.
  intros Hr Hs. rewrite <- (app_nil_r s), (search_skip ic r s [] Hr Hs).
  cbn [search]. now rewrite (quoteFirst_nil ic r Hr).
Qed.

(** From the finite check to the statement about every extension. *)
Lemma extensionCheck_sound (t t' : jsstr) (q1 q2 : N) (pre ext post : jsstr) :
  extensionCheck t t' = true ->
  isQuote q1 = true -> isQuote q2 = true ->
  ext <> [] -> noQuote ext = true -> noQuote pre = true -> noQuote post = true ->
  regexTest (tablePattern t') (js "gi") (pre ++ q1 :: t ++ ext ++ q2 :: post) = false.
Proof.
  unfold extensionCheck, regexTest.
  destruct (newRegExp (tablePattern t') (js "gi")) as [[r i]|]; [|reflexivity].
  cbn [terms ignoreCase]. intros Hchk Hq1 Hq2 Hne Hext Hpre Hpost.
  apply andb_true_iff in Hchk as [Hchk Hrs].
  apply andb_true_iff in Hchk as [Hchk Hlast].
  apply andb_true_iff in Hchk as [Hchk Ht].
  apply andb_true_iff in Hchk as [Hi Hqf].
  subst i. unfold test. cbn [terms ignoreCase].
  destruct ext as [|c ext]; [congruence|].
  cbn [noQuote forallb] in Hext. apply andb_true_iff in Hext as [Hc Hext].
  apply negb_true_iff in Hc.
  rewrite (search_skip true r pre _ Hqf Hpre), search_cons.
  apply orb_false_iff. split.
  - pose proof (run_matchHere true (q1 :: t) ((c :: ext) ++ q2 :: post) [r]) as Hrun.
    cbn [existsb] in Hrun. rewrite orb_false_r in Hrun.
    change (q1 :: t ++ (c :: ext) ++ q2 :: post)
      with ((q1 :: t) ++ (c :: ext) ++ q2 :: post).
    rewrite Hrun.
    rewrite forallb_forall in Hrs. specialize (Hrs q1 (isQuote_In _ Hq1)).
    destruct (run true [r] (q1 :: t)) as [done rs]. cbn [fst snd].
    apply andb_true_iff in Hrs as [Hd Hrs]. apply negb_true_iff in Hd.
    rewrite Hd. cbn [orb app]. now apply quoteFirst_states_reject.
  - rewrite app_assoc, (search_skip true r (t ++ c :: ext) _ Hqf), search_cons.
    + rewrite (search_noQuote true r post Hqf Hpost), orb_false_r.
      destruct r as [|[a q] r]; [discriminate|].
      destruct a as [p| |items], q; try discriminate.
      cbn [tl] in Hlast.
      rewrite matchHere_one_unfold, (quoteLast_reject true r post Hlast Hpost).
      apply andb_false_r.
    + unfold noQuote in *. rewrite forallb_app. cbn [forallb].
      rewrite Ht, Hc, Hext. reflexivity.
Qed.

Lemma extensionCheck_registry :
  forallb (fun t => forallb (extensionCheck t) KNOWN_TABLE_PATTERNS)
    KNOWN_TABLE_PATTERNS = true.
Proof. vm_compute. reflexivity. Qed.

Lemma variantCheck_registry : forallb variantCheck KNOWN_TABLE_PATTERNS = true.
Proof. vm_compute. reflexivity. Qed.

Lemma variantCheck_sound (t v : jsstr) (q1 q2 : N) (pre post : jsstr) :
  variantCheck t = true -> In v (hyphenVariants t) ->
  isQuote q1 = true -> isQuote q2 = true ->
  regexTest (tablePattern t) (js "gi") (pre ++ q1 :: v ++ q2 :: post) = true.
Proof.
  unfold variantCheck, regexTest.
  destruct (newRegExp (tablePattern t) (js "gi")) as [re|]; [|discriminate].
  intros Hchk Hv Hq1 Hq2. unfold test.
  rewrite forallb_forall in Hchk. specialize (Hchk v Hv).
  rewrite forallb_forall in Hchk. specialize (Hchk q1 (isQuote_In _ Hq1)).
  rewrite forallb_forall in Hchk. specialize (Hchk q2 (isQuote_In _ Hq2)).
  replace (q1 :: v ++ q2 :: post) with ((q1 :: v ++ [q2]) ++ post)
    by (cbn [app]; now rewrite <- app_assoc).
  now apply search_infix.
Qed.

(* ================================================================= *)
(** ** The three checks of a line *)

Section Checks.

Variables (filePath line : jsstr) (lineNum : nat).

Lemma forEach_checkTable (names : list jsstr) (st : Findings) :
  forEach names (checkTable filePath line lineNum) st =
  if contractOrTestPath filePath then st
  else (fst st ++ map (tableViolation filePath line lineNum)
                    (filter (fun t => regexTest (tablePattern t) (js "gi") line) names),
        snd st).
Proof.
  unfold forEach. revert st. induction names as [|t names IH]; intros [vs ws].
  - cbn. rewrite app_nil_r. now destruct (contractOrTestPath filePath).
  - cbn [fold_left filter]. rewrite IH. unfold checkTable.
    fold (contractOrTestPath filePath).
    destruct (regexTest (tablePattern t) (js "gi") line);
      destruct (contractOrTestPath filePath); try reflexivity.
    cbn [fst snd map]. now rewrite <- app_assoc.
Qed.

Lemma forEach_checkLambda (names : list jsstr) (st : Findings) :
  forEach names (checkLambda filePath line lineNum) st =
  if contractOrDotTestPath filePath then st
  else (fst st ++ map (lambdaViolation filePath line lineNum)
                    (filter (fun t => regexTest (invokePattern t) (js "i") line) names),
        snd st).
Proof.
  unfold forEach. revert st. induction names as [|t names IH]; intros [vs ws].
  - cbn. rewrite app_nil_r. now destruct (contractOrDotTestPath filePath).
  - cbn [fold_left filter]. rewrite IH. unfold checkLambda.
    fold (contractOrDotTestPath filePath).
    destruct (regexTest (invokePattern t) (js "i") line);
      destruct (contractOrDotTestPath filePath); try reflexivity.
    cbn [fst snd map]. now rewrite <- app_assoc.
Qed.

Lemma forEach_checkSource (names : list jsstr) (st : Findings) :
  forEach names (checkSource filePath line lineNum) st =
  if contractOrDotTestPath filePath then st
  else (fst st,
        snd st ++ map (sourceWarning filePath line lineNum)
                    (filter (fun t => regexTest (sourcePattern t) (js "i") line) names)).
Proof.
  unfold forEach. revert st. induction names as [|t names IH]; intros [vs ws].
  - cbn. rewrite app_nil_r. now destruct (contractOrDotTestPath filePath).
  - cbn [fold_left filter]. rewrite IH. unfold checkSource.
    fold (contractOrDotTestPath filePath).
    destruct (regexTest (sourcePattern t) (js "i") line);
      destruct (contractOrDotTestPath filePath); try reflexivity.
    cbn [fst snd map]. now rewrite <- app_assoc.
Qed.

End Checks.

(** A line appends its findings to the arrays, whatever they hold. *)
Lemma scanLine_lineFindings (filePath line : jsstr) (index : nat) (st : Findings) :
  scanLine filePath line index st =
  (fst st ++ fst (lineFindings filePath line index),
   snd st ++ snd (lineFindings filePath line index)).
Proof.
  unfold scanLine, lineFindings. destruct st as [vs ws].
  destruct (isComment line).
  - cbn [fst snd]. now rewrite !app_nil_r.
  - rewrite forEach_checkTable, forEach_checkLambda, forEach_checkSource.
    fold (tableHits line) (lambdaHits line) (sourceHits line).
    destruct (contractOrTestPath filePath), (contractOrDotTestPath filePath);
      cbn [fst snd app]; rewrite ?app_nil_r, ?app_assoc; reflexivity.
Qed.

(* ================================================================= *)
(** ** Letter case *)

Lemma asciiUpper_idem (c : N) : asciiUpper (asciiUpper c) = asciiUpper c.
Proof.
  destruct (asciiUpper_cases c) as [E|[Hr E]]; [now rewrite E|].
  rewrite E. unfold asciiUpper. decide_eqb. reflexivity.
Qed.

Lemma isLineTerminator_upper (c : N) :
  isLineTerminator (asciiUpper c) = isLineTerminator c.
Proof.
  destruct (asciiUpper_cases c) as [E|[Hr E]]; [now rewrite E|].
  rewrite E. unfold isLineTerminator. decide_eqb. reflexivity.
Qed.

Lemma isSpace_upper (c : N) : isSpace (asciiUpper c) = isSpace c.
Proof.
  destruct (asciiUpper_cases c) as [E|[Hr E]]; [now rewrite E|].
  rewrite E. unfold isSpace, isWhiteSpace, isLineTerminator. decide_eqb.
  reflexivity.
Qed.

Lemma atomMatches_upper (a : Atom) (c : N) :
  atomMatches true a (asciiUpper c) = atomMatches true a c.
Proof.
  destruct a as [p| |items]; cbn [atomMatches].
  - unfold charMatches, canonicalize. now rewrite asciiUpper_idem.
  - now rewrite isLineTerminator_upper.
  - apply existsb_ext_in. intros [p|] _; cbn [itemMatches].
    + unfold charMatches, canonicalize. now rewrite asciiUpper_idem.
    + apply isSpace_upper.
Qed.

(** Under the flag [i] a match does not depend on the case of the ASCII
    letters of the input. *)
Lemma matchHere_upper (r : list Term) (s : jsstr) :
  matchHere true r (map asciiUpper s) = matchHere true r s.
Proof.
  revert s. induction r as [|[a q] r IH]; intros s; [reflexivity|].
  destruct q.
  - destruct s as [|c s]; [reflexivity|].
    cbn [map matchHere]. now rewrite atomMatches_upper, IH.
  - change (matchHere true ((a, Opt) :: r)) with
      (fun s => match s with
                | c :: s' => atomMatches true a c && matchHere true r s'
                | [] => false
                end || matchHere true r s).
    cbv beta. rewrite IH. destruct s as [|c s]; [reflexivity|].
    cbn [map]. now rewrite atomMatches_upper, IH.
  - induction s as [|c s IHs]; [reflexivity|].
    cbn [map].
    rewrite (matchHere_plus_unfold true a r (asciiUpper c :: map asciiUpper s)),
      (matchHere_plus_unfold true a r (c :: s)).
    f_equal; [apply atomMatches_upper|].
    f_equal; [exact IHs | apply IH].
Qed.

Lemma search_upper (r : list Term) (s : jsstr) :
  search true r (map asciiUpper s) = search true r s.
Proof.
  induction s as [|c s IH]; [reflexivity|].
  cbn [map]. rewrite !search_cons, IH.
  change (asciiUpper c :: map asciiUpper s) with (map asciiUpper (c :: s)).
  now rewrite matchHere_upper.
Qed.

Lemma regexTest_sameUpToCase (pattern flags l1 l2 : jsstr) :
  includes (js "i") flags = true -> sameUpToCase l1 l2 ->
  regexTest pattern flags l1 = regexTest pattern flags l2.
Proof.
  intros Hi Hsame. unfold regexTest, newRegExp.
  destruct (compile pattern) as [ts|]; [|reflexivity].
  unfold test. cbn [terms ignoreCase]. rewrite Hi.
  now rewrite <- (search_upper ts l1), <- (search_upper ts l2), Hsame.
Qed.

Lemma trimStart_upper (s : jsstr) :
  trimStart (map asciiUpper s) = map asciiUpper (trimStart s).
Proof.
  induction s as [|c s IH]; [reflexivity|].
  cbn [map trimStart]. rewrite isSpace_upper.
  now destruct (isSpace c).
Qed.

Lemma trim_upper (s : jsstr) : trim (map asciiUpper s) = map asciiUpper (trim s).
Proof.
  unfold trim, trimEnd.
  now rewrite trimStart_upper, <- map_rev, trimStart_upper, map_rev.
Qed.

Lemma startsWith_upper (p s : jsstr) :
  Forall (fun x => (x < 65)%N) p ->
  startsWith p (map asciiUpper s) = startsWith p s.
Proof.
  intros Hp. revert s. induction Hp as [|x p Hx Hp IH]; intros s.
  - now destruct s.
  - destruct s as [|y s]; [reflexivity|].
    cbn [map startsWith]. rewrite IH. f_equal.
    destruct (asciiUpper_cases y) as [E|[Hr E]]; rewrite E; [reflexivity|].
    decide_eqb. reflexivity.
Qed.

Lemma isComment_upper (l : jsstr) : isComment (map asciiUpper l) = isComment l.
Proof.
  unfold isComment. rewrite trim_upper.
  rewrite !startsWith_upper; [reflexivity| | |];
    repeat constructor.
Qed.

Lemma sameUpToCase_findings (filePath l1 l2 : jsstr) (index : nat) :
  sameUpToCase l1 l2 ->
  map sansSnippet (fst (lineFindings filePath l1 index))
  = map sansSnippet (fst (lineFindings filePath l2 index))
  /\ map sansSnippet (snd (lineFindings filePath l1 index))
     = map sansSnippet (snd (lineFindings filePath l2 index)).
Proof.
  intros Hsame. unfold lineFindings.
  assert (Hc : isComment l1 = isComment l2).
  { rewrite <- (isComment_upper l1), <- (isComment_upper l2). now rewrite Hsame. }
  assert (Ht : tableHits l1 = tableHits l2).
  { apply filter_ext. intros t. now apply regexTest_sameUpToCase. }
  assert (Hl : lambdaHits l1 = lambdaHits l2).
  { apply filter_ext. intros t. now apply regexTest_sameUpToCase. }
  assert (Hs : sourceHits l1 = sourceHits l2).
  { apply filter_ext. intros t. now apply regexTest_sameUpToCase. }
  rewrite Hc, Ht, Hl, Hs.
  destruct (isComment l2); [split; reflexivity|].
  cbn [fst snd]. rewrite !map_app.
  destruct (contractOrTestPath filePath), (contractOrDotTestPath filePath);
    rewrite ?map_map; split; reflexivity.
Qed.

(* ================================================================= *)
(** ** Findings of single lines *)

Lemma tableLine_hits :
  isComment tableLine = false
  /\ tableHits tableLine = [js "teric-agentic-work-items"]
  /\ lambdaHits tableLine = [] /\ sourceHits tableLine = [].
Proof. vm_compute. repeat split; reflexivity. Qed.

Lemma lambdaLine_hits :
  isComment lambdaLine = false
  /\ tableHits lambdaLine = []
  /\ lambdaHits lambdaLine = [js "app-code-review"] /\ sourceHits lambdaLine = [].
Proof. vm_compute. repeat split; reflexivity. Qed.

Lemma sourceLine_hits :
  isComment sourceLine = false
  /\ tableHits sourceLine = []
  /\ lambdaHits sourceLine = [] /\ sourceHits sourceLine = [js "teric.orchestrator"].
Proof. vm_compute. repeat split; reflexivity. Qed.

Lemma contractOrTestPath_false (filePath : jsstr) :
  contractOrTestPath filePath = false -> contractOrDotTestPath filePath = false.
Proof.
  unfold contractOrTestPath, contractOrDotTestPath. intros H.
  now apply orb_false_iff in H as [H _].
Qed.

Lemma lineFindings_by_hits (filePath line : jsstr) (index : nat)
    (ts ls ss : list jsstr) :
  isComment line = false /\ tableHits line = ts /\ lambdaHits line = ls
  /\ sourceHits line = ss ->
  contractOrTestPath filePath = false ->
  lineFindings filePath line index =
  (map (tableViolation filePath line (index + 1)) ts
   ++ map (lambdaViolation filePath line (index + 1)) ls,
   map (sourceWarning filePath line (index + 1)) ss).
Proof.
  intros (Hc & Ht & Hl & Hs) Hp. unfold lineFindings.
  now rewrite Hc, Ht, Hl, Hs, Hp, (contractOrTestPath_false _ Hp).
Qed.

Lemma eqb_eq (a b : jsstr) : eqb a b = true -> a = b.
Proof.
  revert b. induction a as [|x a IH]; intros [|y b] H; try discriminate.
  - reflexivity.
  - cbn [eqb] in H. apply andb_true_iff in H as [Hx H].
    apply N.eqb_eq in Hx. now rewrite Hx, (IH b H).
Qed.

Lemma existsb_eqb_In (v : jsstr) (l : list jsstr) :
  existsb (eqb v) l = true -> In v l.
Proof.
  intros H. apply existsb_exists in H as (x & Hin & Hx).
  now rewrite (eqb_eq _ _ Hx).
Qed.


(** A file under a contracts directory or with [.test.] or [.spec.] in its
    path gets no finding from any of the three checks. *)
Lemma contract_and_dot_test_paths_suppressed (filePath line : jsstr) (index : nat)
    (st : Findings) :
  contractOrDotTestPath filePath = true -> scanLine filePath line index st = st.
Proof.
  intros H. rewrite scanLine_lineFindings. unfold lineFindings.
  assert (H' : contractOrTestPath filePath = true).
  { unfold contractOrTestPath. fold (contractOrDotTestPath filePath). now rewrite H. }
  rewrite H, H'. destruct st as [vs ws].
  destruct (isComment line); cbn [fst snd app]; now rewrite !app_nil_r.
Qed.

(** C8. Severity tiers: in a file that is neither a test nor under a
    contracts directory, the line [FunctionName: 'app-code-review'] adds
    exactly one finding, a [hardcoded_lambda_name] violation of severity
    error, and the line [Source: 'teric.orchestrator'] adds exactly one
    finding, a [hardcoded_event_source] warning, to the warnings array and
    not to the violations; a file made of that one line gives just that
    finding. *)
Theorem severity_tiers (filePath : jsstr) :
  contractOrTestPath filePath = false ->
  (forall index st,
      scanLine filePath lambdaLine index st =
      (fst st ++
       [{| type := hardcoded_lambda_name;
           severity := sev_error;
           file := Some filePath;
           line := Some (index + 1);
           message := JStr (js "Hardcoded Lambda name 'app-code-review' should use @teric/contracts");
           contract := Some (js "@teric/contracts/lambda/app-code-review");
           snippet := Some lambdaLine;
           expected := None |}],
       snd st))
  /\ (forall index st,
      scanLine filePath sourceLine index st =
      (fst st,
       snd st ++
       [{| type := hardcoded_event_source;
           severity := sev_warning;
           file := Some filePath;
           line := Some (index + 1);
           message := JStr (js "EventBridge source 'teric.orchestrator' should use @teric/contracts");
           contract := Some (js "@teric/contracts/events/orchestrator");
           snippet := Some sourceLine;
           expected := None |}]))
  /\ (forall w,
      readFileSync w filePath = Ok lambdaLine ->
      map type (fst (scanFile w filePath)) = [hardcoded_lambda_name]
      /\ snd (scanFile w filePath) = [])
  /\ (forall w,
      readFileSync w filePath = Ok sourceLine ->
      fst (scanFile w filePath) = []
      /\ map type (snd (scanFile w filePath)) = [hardcoded_event_source]).
Proof.
  intros Hp.
  assert (Hl : forall index st,
             scanLine filePath lambdaLine index st =
             (fst st ++ [lambdaViolation filePath lambdaLine (index + 1)
                           (js "app-code-review")], snd st)).
  { intros index st.
    rewrite scanLine_lineFindings,
      (lineFindings_by_hits filePath lambdaLine index _ _ _ lambdaLine_hits Hp).
    cbn [fst snd map app]. now rewrite app_nil_r. }
  assert (Hs : forall index st,
             scanLine filePath sourceLine index st =
             (fst st, snd st ++ [sourceWarning filePath sourceLine (index + 1)
                                   (js "teric.orchestrator")])).
  { intros index st.
    rewrite scanLine_lineFindings,
      (lineFindings_by_hits filePath sourceLine index _ _ _ sourceLine_hits Hp).
    cbn [fst snd map app]. now rewrite app_nil_r. }
  split; [|split; [|split]].
  - intros index st. now rewrite Hl.
  - intros index st. now rewrite Hs.
  - intros w Hread. unfold scanFile. rewrite Hread.
    change (split_lines lambdaLine) with [lambdaLine].
    cbn [forEachIndexed]. rewrite Hl. split; reflexivity.
  - intros w Hread. unfold scanFile. rewrite Hread.
    change (split_lines sourceLine) with [sourceLine].
    cbn [forEachIndexed]. rewrite Hs. split; reflexivity.
Qed.

Lemma severity_tiers_witness :
  contractOrTestPath (js "src/invoker.ts") = false
  /\ map severity (fst (scanLine (js "src/invoker.ts") lambdaLine 2 ([], []))) = [sev_error]
  /\ map severity (snd (scanLine (js "src/invoker.ts") sourceLine 2 ([], []))) = [sev_warning].
Proof.
  assert (Hp : contractOrTestPath (js "src/invoker.ts") = false) by reflexivity.
  pose proof (severity_tiers (js "src/invoker.ts") Hp) as (Hl & Hs & _).
  split; [exact Hp|]. rewrite Hl, Hs. split; reflexivity.
Defined.

Lemma upperTableLine_hits :
  isComment upperTableLine = false
  /\ tableHits upperTableLine = [js "teric-agentic-work-items"]
  /\ lambdaHits upperTableLine = [] /\ sourceHits upperTableLine = [].
Proof. vm_compute. repeat split; reflexivity. Qed.

Lemma upperLambdaLine_hits :
  isComment upperLambdaLine = false
  /\ tableHits upperLambdaLine = []
  /\ lambdaHits upperLambdaLine = [js "app-code-review"]
  /\ sourceHits upperLambdaLine = [].
Proof. vm_compute. repeat split; reflexivity. Qed.

Lemma upperSourceLine_hits :
  isComment upperSourceLine = false
  /\ tableHits upperSourceLine = []
  /\ lambdaHits upperSourceLine = []
  /\ sourceHits upperSourceLine = [js "teric.orchestrator"].
Proof. vm_compute. repeat split; reflexivity. Qed.

(** C10. The three checks match without regard to letter case: two lines
    that differ only in the case of their letters add the same findings
    (same kind, severity, file, line number, message and contract path; the
    snippet quotes each line as it is written), and the message and the
    contract path spell the name as the registry does: the quoted string
    TERIC-AGENTIC-WORK-ITEMS, a line with functionname and the quoted
    APP-CODE-REVIEW, and an event source in mixed case give the findings of
    the lower-case spellings. *)
Theorem case_insensitive_matching :
  (forall filePath l1 l2 index st,
      sameUpToCase l1 l2 ->
      map sansSnippet (fst (scanLine filePath l1 index st))
      = map sansSnippet (fst (scanLine filePath l2 index st))
      /\ map sansSnippet (snd (scanLine filePath l1 index st))
         = map sansSnippet (snd (scanLine filePath l2 index st)))
  /\ (forall filePath index st,
      contractOrTestPath filePath = false ->
      scanLine filePath upperTableLine index st =
      (fst st ++
       [{| type := hardcoded_table_name;
           severity := sev_error;
           file := Some filePath;
           line := Some (index + 1);
           message := JStr (js "Hardcoded table name 'teric-agentic-work-items' should use @teric/contracts");
           contract := Some (js "@teric/contracts/dynamodb/work-items");
           snippet := Some upperTableLine;
           expected := None |}],
       snd st)
      /\ scanLine filePath upperLambdaLine index st =
         (fst st ++
          [{| type := hardcoded_lambda_name;
              severity := sev_error;
              file := Some filePath;
              line := Some (index + 1);
              message := JStr (js "Hardcoded Lambda name 'app-code-review' should use @teric/contracts");
              contract := Some (js "@teric/contracts/lambda/app-code-review");
              snippet := Some upperLambdaLine;
              expected := None |}],
          snd st)
      /\ scanLine filePath upperSourceLine index st =
         (fst st,
          snd st ++
          [{| type := hardcoded_event_source;
              severity := sev_warning;
              file := Some filePath;
              line := Some (index + 1);
              message := JStr (js "EventBridge source 'teric.orchestrator' should use @teric/contracts");
              contract := Some (js "@teric/contracts/events/orchestrator");
              snippet := Some upperSourceLine;
              expected := None |}])).
Proof.
  split.
  - intros filePath l1 l2 index st Hsame.
    rewrite !scanLine_lineFindings. cbn [fst snd]. rewrite !map_app.
    destruct (sameUpToCase_findings filePath l1 l2 index Hsame) as [Hv Hw].
    now rewrite Hv, Hw.
  - intros filePath index st Hp. rewrite !scanLine_lineFindings.
    rewrite (lineFindings_by_hits filePath upperTableLine index _ _ _ upperTableLine_hits Hp),
      (lineFindings_by_hits filePath upperLambdaLine index _ _ _ upperLambdaLine_hits Hp),
      (lineFindings_by_hits filePath upperSourceLine index _ _ _ upperSourceLine_hits Hp).
    cbn [fst snd map app]. rewrite !app_nil_r. repeat split; reflexivity.
Qed.

Lemma case_insensitive_matching_witness :
  sameUpToCase upperTableLine (js "const t = 'teric-agentic-work-items';")
  /\ map sansSnippet (fst (scanLine (js "lib/db.js") upperTableLine 0 ([], [])))
     = map sansSnippet
         (fst (scanLine (js "lib/db.js") (js "const t = 'teric-agentic-work-items';") 0 ([], [])))
  /\ contractOrTestPath (js "lib/db.js") = false
  /\ map type (fst (scanLine (js "lib/db.js") upperLambdaLine 0 ([], [])))
     = [hardcoded_lambda_name].
Proof.
  pose proof case_insensitive_matching as [Hsame Hex].
  assert (Hs : sameUpToCase upperTableLine (js "const t = 'teric-agentic-work-items';"))
    by reflexivity.
  assert (Hp : contractOrTestPath (js "lib/db.js") = false) by reflexivity.
  split; [exact Hs|]. split; [apply (Hsame _ _ _ 0 ([], []) Hs)|].
  split; [exact Hp|].
  destruct (Hex (js "lib/db.js") 0 ([], []) Hp) as (_ & Hl & _).
  rewrite Hl. reflexivity.
Defined.

(** C7. The function-name and event-source checks do not test the path for
    [__tests__] as the table-name check does: in the file
    [src/__tests__/invoker.ts], which the enumeration reaches, the table
    line gives no finding, while [FunctionName: 'app-code-review'] gives a
    [hardcoded_lambda_name] violation, which fails a blocking run, and
    [Source: 'teric.orchestrator'] gives a [hardcoded_event_source]
    warning. *)
Theorem tests_directory_not_suppressed :
  let path := js "src/__tests__/invoker.ts" in
  includes (js "__tests__") path = true
  /\ scanFile (testsDirWorld tableLine) path = ([], [])
  /\ scanFile (testsDirWorld lambdaLine) path
     = ([lambdaViolation path lambdaLine 1 (js "app-code-review")], [])
  /\ scanFile (testsDirWorld sourceLine) path
     = ([], [sourceWarning path sourceLine 1 (js "teric.orchestrator")])
  /\ map (fun r => (passed r, map type (violations r), map file (violations r)))
       (stdout (validate (testsDirWorld lambdaLine) configName false))
     = [(false, [hardcoded_lambda_name], [Some path])]
  /\ exitCode (validate (testsDirWorld lambdaLine) configName false) = 1%Z.
Proof. vm_compute. repeat split; reflexivity. Qed.

(* ================================================================= *)
(** ** The report of a run *)

Lemma scanEach_flat_map (w : World) (files : list jsstr) (st : Findings) :
  scanEach w files st =
  (fst st ++ flat_map (fun f => fst (scanFile w f)) files,
   snd st ++ flat_map (fun f => snd (scanFile w f)) files).
Proof.
  unfold scanEach. revert st. induction files as [|f files IH]; intros [vs ws].
  - cbn. now rewrite !app_nil_r.
  - cbn [fold_left flat_map]. rewrite IH.
    destruct (scanFile w f) as [v wn]. cbn [fst snd].
    now rewrite <- !app_assoc.
Qed.

(** What [validate] has put in the report when the scan ran to its end. *)
Lemma buildReport_Ok (w : World) (advisoryMode : bool) (result : Report)
    (contracts : JsValue) (r : Report) :
  buildReport w advisoryMode result contracts = Ok r ->
  passed r = (if Nat.ltb 0 (List.length (violations r)) then advisoryMode
              else passed result)
  /\ Summary.errors (summary r) = List.length (violations r)
  /\ Summary.warnings (summary r) = List.length (warnings r)
  /\ Summary.total (summary r)
     = Summary.errors (summary r) + Summary.warnings (summary r)
  /\ metadata r = metadata result.
Proof.
  unfold buildReport, bind.
  destruct (validateDeclaredContracts w contracts) as [declared|e]; [|discriminate].
  destruct (collectSourceDirs w srcDirs []) as [fromDirs|e]; [|discriminate].
  destruct (rootFiles w) as [fromRoot|e]; [|discriminate].
  destruct (scanEach w (fromDirs ++ fromRoot) _) as [vs ws].
  intros H. injection H as <-. cbn. repeat split; reflexivity.
Qed.

(** The three ways a run ends. *)
Lemma validate_cases (w : World) (configFile : jsstr) (advisoryMode : bool) :
  (exists e,
      validate w configFile advisoryMode
      = {| stdout := []; exitCode := 1; uncaught := Some e |})
  \/ (exists err,
      getProp (parseContractsFile w configFile) (js "error") = Ok err
      /\ truthy err = true
      /\ validate w configFile advisoryMode
         = {| stdout :=
                [{| passed := true;
                    violations := [];
                    warnings := [configErrorWarning err];
                    summary := {| Summary.total := 0; Summary.errors := 0;
                                  Summary.warnings := 0; Summary.filesScanned := 0 |};
                    metadata := {| Metadata.configFile := configFile;
                                   Metadata.advisoryMode := advisoryMode;
                                   Metadata.timestamp := now w;
                                   Metadata.version := js "1.0.0" |} |}];
              exitCode := 0;
              uncaught := None |})
  \/ (exists r,
      buildReport w advisoryMode (initialReport w configFile advisoryMode)
        (parseContractsFile w configFile) = Ok r
      /\ validate w configFile advisoryMode
         = {| stdout := [r];
              exitCode := if negb advisoryMode && Nat.ltb 0 (List.length (violations r))
                          then 1%Z else 0%Z;
              uncaught := None |}).
Proof.
  unfold validate.
  destruct (getProp (parseContractsFile w configFile) (js "error")) as [err|e].
  - destruct (truthy err) eqn:Ht.
    + right. left. exists err. repeat split; try reflexivity; assumption.
    + destruct (buildReport w advisoryMode _ _) as [r|e] eqn:Hb.
      * right. right. exists r. split; [reflexivity|].
        now destruct (negb advisoryMode && Nat.ltb 0 (List.length (violations r))).
      * left. now exists e.
  - left. now exists e.
Qed.

Lemma length_ltb_nil {A : Type} (l : list A) :
  Nat.ltb 0 (List.length l) = false <-> l = [].
Proof. destruct l; cbn; split; congruence. Qed.

(** C1. For every run that prints a report, [passed] is true exactly when
    the violations list is empty or advisory mode is on; so in advisory
    mode it is true whatever was found, and in blocking mode with at least
    one violation it is false. *)
Theorem passed_iff_clean_or_advisory (w : World) (configFile : jsstr)
    (advisoryMode : bool) (r : Report) :
  In r (stdout (validate w configFile advisoryMode)) ->
  (passed r = true <-> violations r = [] \/ advisoryMode = true)
  /\ (advisoryMode = true -> passed r = true)
  /\ (advisoryMode = false -> violations r <> [] -> passed r = false)
  /\ Metadata.advisoryMode (metadata r) = advisoryMode.
Proof.
  intros Hin.
  assert (H : passed r = (if Nat.ltb 0 (List.length (violations r))
                          then advisoryMode else true)
              /\ Metadata.advisoryMode (metadata r) = advisoryMode).
  { destruct (validate_cases w configFile advisoryMode)
      as [(e & Hv)|[(err & _ & _ & Hv)|(r' & Hb & Hv)]];
      rewrite Hv in Hin; cbn [stdout In] in Hin.
    - contradiction.
    - destruct Hin as [<-|[]]. split; reflexivity.
    - destruct Hin as [<-|[]].
      destruct (buildReport_Ok _ _ _ _ _ Hb) as (Hp & _ & _ & _ & Hm).
      rewrite Hp, Hm. split; reflexivity. }
  destruct H as [Hp Hm]. rewrite Hp.
  destruct (Nat.ltb 0 (List.length (violations r))) eqn:Hl.
  - assert (Hne : violations r <> []).
    { intros E. apply length_ltb_nil in E. congruence. }
    split; [|split; [|split]]; [tauto | tauto | tauto | exact Hm].
  - apply length_ltb_nil in Hl.
    split; [|split; [|split]]; [tauto | tauto | tauto | exact Hm].
Qed.

Lemma passed_iff_clean_or_advisory_witness :
  exists r,
    In r (stdout (validate fixtureWorld configName false))
    /\ violations r <> [] /\ passed r = false.
Proof.
  eexists. split; [left; reflexivity|].
  assert (Hin : In (hd (initialReport fixtureWorld configName false)
                      (stdout (validate fixtureWorld configName false)))
                  (stdout (validate fixtureWorld configName false)))
    by (left; reflexivity).
  pose proof (passed_iff_clean_or_advisory fixtureWorld configName false _ Hin)
    as (_ & _ & Hblock & _).
  assert (Hne : violations (hd (initialReport fixtureWorld configName false)
                              (stdout (validate fixtureWorld configName false))) <> [])
    by (vm_compute; discriminate).
  split; [exact Hne | exact (Hblock eq_refl Hne)].
Defined.

Lemma parseContractsFile_unavailable (w : World) (configFile : jsstr) :
  configUnavailable w configFile ->
  exists msg,
    msg <> [] /\ parseContractsFile w configFile = errorObject msg
    /\ (existsSync w configFile = false ->
        msg = js "Config file not found: " ++ configFile).
Proof.
  unfold parseContractsFile, bind.
  intros [Hex|[(e & Hr)|(content & e & Hr & Hy)]].
  - rewrite Hex. cbn [negb]. eexists. repeat split. discriminate.
  - destruct (existsSync w configFile); cbn [negb].
    + rewrite Hr. eexists. split; [|split; [reflexivity|discriminate]]. discriminate.
    + eexists. repeat split. discriminate.
  - destruct (existsSync w configFile); cbn [negb].
    + rewrite Hr, Hy. eexists. split; [|split; [reflexivity|discriminate]]. discriminate.
    + eexists. repeat split. discriminate.
Qed.

(** C5. If the configuration file is absent or cannot be read or parsed,
    the run prints at once a report with [passed] true, no violation,
    exactly one warning, of kind [config_error], and all counts at zero
    ([filesScanned] included), and ends with status 0, whatever the advisory
    flag and whatever the source tree holds. *)
Theorem config_error_short_circuit (w : World) (configFile : jsstr)
    (advisoryMode : bool) :
  configUnavailable w configFile ->
  exists msg,
    (existsSync w configFile = false ->
     msg = js "Config file not found: " ++ configFile)
    /\ validate w configFile advisoryMode
       = {| stdout :=
              [{| passed := true;
                  violations := [];
                  warnings :=
                    [{| type := config_error;
                        severity := sev_warning;
                        file := None;
                        line := None;
                        message := JStr msg;
                        contract := None;
                        snippet := None;
                        expected := None |}];
                  summary := {| Summary.total := 0; Summary.errors := 0;
                                Summary.warnings := 0; Summary.filesScanned := 0 |};
                  metadata := {| Metadata.configFile := configFile;
                                 Metadata.advisoryMode := advisoryMode;
                                 Metadata.timestamp := now w;
                                 Metadata.version := js "1.0.0" |} |}];
            exitCode := 0;
            uncaught := None |}.
Proof.
  intros Hu.
  destruct (parseContractsFile_unavailable w configFile Hu) as (msg & Hne & Hp & Hmsg).
  exists msg. split; [exact Hmsg|].
  unfold validate. rewrite Hp.
  cbn [errorObject getProp lookup].
  change (eqb (js "error") (js "error")) with true. cbv iota.
  destruct msg as [|c msg]; [congruence|]. reflexivity.
Qed.

Lemma config_error_short_circuit_witness :
  configUnavailable bareWorld configName
  /\ map (fun r => (passed r, violations r, map type (warnings r),
                    Summary.filesScanned (summary r)))
       (stdout (validate bareWorld configName true))
     = [(true, [], [config_error], 0)].
Proof.
  assert (Hu : configUnavailable bareWorld configName) by (left; reflexivity).
  split; [exact Hu|].
  destruct (config_error_short_circuit bareWorld configName true Hu) as (msg & _ & Hv).
  rewrite Hv. reflexivity.
Defined.

(** C9. A file that cannot be read gives no violation and exactly one
    warning, of kind [scan_error], that names the file and quotes the reason
    the read failed with; the scan goes on, and the findings of the files
    around it are those of the enumeration without it, with that one warning
    in the place of the file. *)
Theorem read_failure_does_not_abort (w : World) (filePath reason : jsstr) :
  readFileSync w filePath = Throw (MkError reason) ->
  scanFile w filePath
  = ([], [{| type := scan_error;
             severity := sev_warning;
             file := Some filePath;
             line := Some 0;
             message := JStr (js "Could not scan file: " ++ reason);
             contract := None;
             snippet := None;
             expected := None |}])
  /\ forall before after st,
      fst (scanEach w (before ++ filePath :: after) st)
      = fst (scanEach w (before ++ after) st)
      /\ snd (scanEach w (before ++ filePath :: after) st)
         = snd (scanEach w before st)
           ++ [{| type := scan_error;
                  severity := sev_warning;
                  file := Some filePath;
                  line := Some 0;
                  message := JStr (js "Could not scan file: " ++ reason);
                  contract := None;
                  snippet := None;
                  expected := None |}]
           ++ flat_map (fun f => snd (scanFile w f)) after
      /\ snd (scanEach w (before ++ after) st)
         = snd (scanEach w before st)
           ++ flat_map (fun f => snd (scanFile w f)) after.
Proof.
  intros Hread.
  assert (Hs : scanFile w filePath
               = ([], [{| type := scan_error;
                          severity := sev_warning;
                          file := Some filePath;
                          line := Some 0;
                          message := JStr (js "Could not scan file: " ++ reason);
                          contract := None;
                          snippet := None;
                          expected := None |}])).
  { unfold scanFile. now rewrite Hread. }
  split; [exact Hs|].
  intros before after st. rewrite !scanEach_flat_map. cbn [fst snd].
  rewrite !flat_map_app. cbn [flat_map]. rewrite Hs. cbn [fst snd app].
  now rewrite <- !app_assoc.
Qed.

Lemma read_failure_does_not_abort_witness :
  readFileSync fixtureWorld (js "lib/gone.ts")
  = Throw (MkError (js "ENOENT: no such file or directory, open 'lib/gone.ts'"))
  /\ scanFile fixtureWorld (js "lib/gone.ts")
     = ([], [{| type := scan_error;
                severity := sev_warning;
                file := Some (js "lib/gone.ts");
                line := Some 0;
                message := JStr (js "Could not scan file: ENOENT: no such file or directory, open 'lib/gone.ts'");
                contract := None;
                snippet := None;
                expected := None |}])
  /\ fst (scanEach fixtureWorld [js "lib/gone.ts"; js "src/handler.ts"] ([], []))
     = fst (scanEach fixtureWorld [js "src/handler.ts"] ([], []))
  /\ map message (snd (scanEach fixtureWorld [js "lib/gone.ts"; js "src/handler.ts"] ([], [])))
     = [JStr (js "Could not scan file: ENOENT: no such file or directory, open 'lib/gone.ts'")].
Proof.
  assert (Hr : readFileSync fixtureWorld (js "lib/gone.ts")
               = Throw (MkError (js "ENOENT: no such file or directory, open 'lib/gone.ts'")))
    by reflexivity.
  destruct (read_failure_does_not_abort fixtureWorld (js "lib/gone.ts") _ Hr)
    as [Hs Hall].
  destruct (Hall [] [js "src/handler.ts"] ([], [])) as (Hv & Hw & _).
  split; [exact Hr|]. split; [exact Hs|]. split; [exact Hv|].
  cbn [app] in Hw. rewrite Hw. vm_compute. reflexivity.
Defined.

(** X16. After a complete scan the counts of the summary are the lengths of the
    two arrays. *)
Lemma summary_counts_after_scan (w : World) (configFile : jsstr)
    (advisoryMode : bool) (r : Report) :
  buildReport w advisoryMode (initialReport w configFile advisoryMode)
    (parseContractsFile w configFile) = Ok r ->
  Summary.errors (summary r) = List.length (violations r)
  /\ Summary.warnings (summary r) = List.length (warnings r)
  /\ Summary.total (summary r)
     = Summary.errors (summary r) + Summary.warnings (summary r).
Proof.
  intros Hb. destruct (buildReport_Ok _ _ _ _ _ Hb) as (_ & He & Hw & Ht & _).
  auto.
Qed.

(** C2. On the early return for a configuration error the summary is not
    computed: with no configuration file the report holds one warning while
    [summary.warnings] and [summary.total] are 0. *)
Theorem summary_stale_on_config_error :
  map (fun r => (List.length (violations r), Summary.errors (summary r),
                 List.length (warnings r), Summary.warnings (summary r),
                 Summary.total (summary r)))
    (stdout (validate bareWorld configName false))
  = [(0, 0, 1, 0, 0)].
Proof. vm_compute. reflexivity. Qed.

(** X15. When a report is printed, the exit status is 1 exactly in blocking mode
    with a violation in the report. *)
Lemma exit_status_of_reported_run (w : World) (configFile : jsstr)
    (advisoryMode : bool) (r : Report) :
  In r (stdout (validate w configFile advisoryMode)) ->
  (exitCode (validate w configFile advisoryMode) = 1%Z
   <-> advisoryMode = false /\ violations r <> [])
  /\ (exitCode (validate w configFile advisoryMode) = 0%Z
      <-> advisoryMode = true \/ violations r = []).
Proof.
  intros Hin.
  destruct (validate_cases w configFile advisoryMode)
    as [(e & Hv)|[(err & _ & _ & Hv)|(r' & Hb & Hv)]];
    rewrite Hv in *; cbn [stdout exitCode In] in *.
  - contradiction.
  - destruct Hin as [<-|[]]. cbn [violations]. intuition congruence.
  - destruct Hin as [<-|[]].
    destruct advisoryMode; cbn [negb andb].
    + intuition congruence.
    + destruct (Nat.ltb 0 (List.length (violations r'))) eqn:Hl.
      * assert (Hne : violations r' <> []).
        { intros E. apply length_ltb_nil in E. congruence. }
        intuition congruence.
      * apply length_ltb_nil in Hl. intuition congruence.
Qed.

(** X17. A configuration that parses to [undefined] or [null] makes [validate]
    throw on its first use, before anything is printed. *)
Lemma nullish_config_throws (w : World) (configFile content : jsstr)
    (advisoryMode : bool) (v : JsValue) :
  existsSync w configFile = true ->
  readFileSync w configFile = Ok content ->
  yamlLoad w content = Ok v ->
  nullish v = true ->
  stdout (validate w configFile advisoryMode) = []
  /\ uncaught (validate w configFile advisoryMode) <> None
  /\ exitCode (validate w configFile advisoryMode) = 1%Z.
Proof.
  intros Hex Hr Hy Hn. unfold validate, parseContractsFile, bind.
  rewrite Hex, Hr, Hy. cbn [negb].
  destruct v; try discriminate; cbn; repeat split; discriminate.
Qed.

(** C3. A run that throws ends with status 1 although advisory mode is on
    and no violation was found: with an empty configuration file and
    [--advisory], nothing is printed and the exit status is 1 (the defect
    is that of C4). *)
Theorem exit_status_of_empty_config_run :
  exitCode (validate emptyConfigWorld configName true) = 1%Z
  /\ stdout (validate emptyConfigWorld configName true) = []
  /\ parseContractsFile emptyConfigWorld configName = JUndefined.
Proof. vm_compute. repeat split; reflexivity. Qed.

(** C4. An exception escapes [validate] and no report is printed: when the
    configuration file holds no document (the loader returns [undefined]),
    reading [contracts.error] throws; when [src] is a regular file, listing
    it throws. *)
Theorem uncaught_exceptions :
  (forall advisoryMode,
      stdout (validate emptyConfigWorld configName advisoryMode) = []
      /\ uncaught (validate emptyConfigWorld configName advisoryMode)
         = Some (MkError (js "Cannot read properties of undefined (reading 'error')")))
  /\ (forall advisoryMode,
      stdout (validate srcIsFileWorld configName advisoryMode) = []
      /\ uncaught (validate srcIsFileWorld configName advisoryMode)
         = Some (enotdir (js "src"))).
Proof. split; intros []; vm_compute; split; reflexivity. Qed.

(* ================================================================= *)
(** ** Lines that cannot give a finding *)

Lemma search_quoteLast (ic : bool) (r : list Term) (s : jsstr) :
  quoteLast r = true -> noQuote s = true -> search ic r s = false.
Proof.
  intros Hr. induction s as [|c s IH]; intros Hs.
  - cbn [search]. now rewrite (quoteLast_reject ic r [] Hr Hs).
  - rewrite search_cons, (quoteLast_reject ic r (c :: s) Hr Hs).
    cbn [noQuote forallb] in Hs. apply andb_true_iff in Hs as [_ Hs].
    now apply IH.
Qed.

Lemma closesWithQuote_noQuote (pattern flags line : jsstr) :
  closesWithQuote pattern flags = true -> noQuote line = true ->
  regexTest pattern flags line = false.
Proof.
  unfold closesWithQuote, regexTest.
  destruct (newRegExp pattern flags) as [re|]; [|reflexivity].
  intros Hr Hs. now apply search_quoteLast.
Qed.

Lemma filter_none {A : Type} (f : A -> bool) (l : list A) :
  (forall a, In a l -> f a = false) -> filter f l = [].
Proof.
  induction l as [|a l IH]; intros H; [reflexivity|].
  cbn [filter]. rewrite (H a (or_introl eq_refl)). apply IH.
  intros b Hb. apply H. now right.
Qed.

Lemma registry_closesWithQuote :
  forallb (fun t => closesWithQuote (tablePattern t) (js "gi")) KNOWN_TABLE_PATTERNS
  && forallb (fun t => closesWithQuote (invokePattern t) (js "i")) KNOWN_LAMBDA_PATTERNS
  && forallb (fun t => closesWithQuote (sourcePattern t) (js "i")) KNOWN_EVENT_SOURCES
  = true.
Proof. vm_compute. reflexivity. Qed.

(** X1. A line without any quote character gives no finding, in any file. *)
Theorem no_quote_no_finding (filePath line : jsstr) (index : nat) (st : Findings) :
  noQuote line = true -> scanLine filePath line index st = st.
Proof.
  intros Hq. pose proof registry_closesWithQuote as H.
  apply andb_true_iff in H as [H Hs]. apply andb_true_iff in H as [Ht Hl].
  rewrite forallb_forall in Ht, Hl, Hs.
  assert (Et : tableHits line = []).
  { apply filter_none. intros t Hin. apply closesWithQuote_noQuote; auto. }
  assert (El : lambdaHits line = []).
  { apply filter_none. intros t Hin. apply closesWithQuote_noQuote; auto. }
  assert (Es : sourceHits line = []).
  { apply filter_none. intros t Hin. apply closesWithQuote_noQuote; auto. }
  rewrite scanLine_lineFindings. unfold lineFindings. rewrite Et, El, Es.
  destruct st as [vs ws].
  destruct (isComment line), (contractOrTestPath filePath),
    (contractOrDotTestPath filePath); cbn [fst snd map app];
    now rewrite !app_nil_r.
Qed.

Lemma no_quote_no_finding_witness :
  noQuote (js "const tableName = teric-agentic-work-items; FunctionName: app-code-review") = true
  /\ scanLine (js "src/handler.ts")
       (js "const tableName = teric-agentic-work-items; FunctionName: app-code-review")
       0 ([], []) = ([], []).
Proof.
  assert (H : noQuote (js "const tableName = teric-agentic-work-items; FunctionName: app-code-review") = true)
    by reflexivity.
  split; [exact H|]. exact (no_quote_no_finding _ _ 0 ([], []) H).
Defined.

Lemma literalPrefix_startsWith (lit : jsstr) (r : list Term) (s : jsstr) :
  literalPrefix lit r = true -> matchHere true r s = true ->
  startsWith (map asciiUpper lit) (map asciiUpper s) = true.
Proof.
  revert r s. induction lit as [|c lit IH]; intros r s Hl Hm; [reflexivity|].
  cbn [literalPrefix] in Hl.
  destruct r as [|[a q] r]; [discriminate|].
  destruct a as [p| |items]; try discriminate. destruct q; try discriminate.
  apply andb_true_iff in Hl as [Hp Hl]. apply N.eqb_eq in Hp. subst p.
  rewrite matchHere_one_unfold in Hm. destruct s as [|x s]; [discriminate|].
  apply andb_true_iff in Hm as [Hc Hm].
  cbn [map startsWith]. cbn [atomMatches] in Hc.
  unfold charMatches, canonicalize in Hc. rewrite Hc. cbn [andb].
  exact (IH r s Hl Hm).
Qed.

Lemma literalPrefix_search (lit : jsstr) (r : list Term) (s : jsstr) :
  literalPrefix lit r = true -> search true r s = true ->
  includes (map asciiUpper lit) (map asciiUpper s) = true.
Proof.
  intros Hl. induction s as [|c s IH]; intros Hs.
  - cbn [search] in Hs. rewrite orb_false_r in Hs.
    cbn [map includes]. rewrite orb_false_r.
    exact (literalPrefix_startsWith lit r [] Hl Hs).
  - rewrite search_cons in Hs. cbn [map includes].
    apply orb_true_iff in Hs as [Hs|Hs]; apply orb_true_iff.
    + left. exact (literalPrefix_startsWith lit r (c :: s) Hl Hs).
    + right. exact (IH Hs).
Qed.

Lemma opensWith_mentions (keyword pattern flags line : jsstr) :
  opensWith keyword pattern flags = true -> mentions keyword line = false ->
  regexTest pattern flags line = false.
Proof.
  unfold opensWith, regexTest, mentions.
  destruct (newRegExp pattern flags) as [[r i]|]; [|reflexivity].
  cbn [terms ignoreCase]. unfold test. cbn [terms ignoreCase].
  intros H Hm. apply andb_true_iff in H as [-> Hl].
  destruct (search true r line) eqn:Hs; [|reflexivity].
  rewrite (literalPrefix_search keyword r line Hl Hs) in Hm. discriminate.
Qed.

Lemma registry_opensWith :
  forallb (fun t => opensWith (js "FunctionName") (invokePattern t) (js "i"))
    KNOWN_LAMBDA_PATTERNS
  && forallb (fun t => opensWith (js "Source") (sourcePattern t) (js "i"))
       KNOWN_EVENT_SOURCES
  = true.
Proof. vm_compute. reflexivity. Qed.

(** X2. A known function name is reported only on a line that holds the keyword
    [FunctionName], and a known event source only on a line that holds the
    keyword [Source] (in any letter case): without the first keyword every
    violation of the line is a table name, without the second the line adds
    no warning. *)
Theorem keyword_required (filePath line : jsstr) (index : nat) (st : Findings) :
  (mentions (js "FunctionName") line = false ->
   forall f, In f (fst (scanLine filePath line index st)) ->
             In f (fst st) \/ type f = hardcoded_table_name)
  /\ (mentions (js "Source") line = false ->
      snd (scanLine filePath line index st) = snd st).
Proof.
  pose proof registry_opensWith as H. apply andb_true_iff in H as [Hl Hs].
  rewrite forallb_forall in Hl, Hs.
  rewrite scanLine_lineFindings. cbn [fst snd]. unfold lineFindings. split.
  - intros Hm f Hin.
    assert (El : lambdaHits line = []).
    { apply filter_none. intros t Ht.
      exact (opensWith_mentions _ _ _ line (Hl t Ht) Hm). }
    rewrite El in Hin. apply in_app_or in Hin as [Hin|Hin]; [now left|right].
    destruct (isComment line); [contradiction|]. cbn [fst map] in Hin.
    destruct (contractOrDotTestPath filePath); rewrite app_nil_r in Hin;
      (destruct (contractOrTestPath filePath); [contradiction|]);
      apply in_map_iff in Hin as (t & <- & _); reflexivity.
  - intros Hm.
    assert (Es : sourceHits line = []).
    { apply filter_none. intros t Ht.
      exact (opensWith_mentions _ _ _ line (Hs t Ht) Hm). }
    rewrite Es.
    destruct (isComment line), (contractOrDotTestPath filePath);
      cbn [snd map]; now rewrite app_nil_r.
Qed.

Lemma keyword_required_witness :
  mentions (js "Source") (js "topic: 'teric.orchestrator', name: 'app-code-review'") = false
  /\ snd (scanLine (js "src/events.ts")
            (js "topic: 'teric.orchestrator', name: 'app-code-review'") 0 ([], [])) = []
  /\ mentions (js "FunctionName") (js "topic: 'teric.orchestrator', name: 'app-code-review'") = false
  /\ fst (scanLine (js "src/events.ts")
            (js "topic: 'teric.orchestrator', name: 'app-code-review'") 0 ([], [])) = [].
Proof.
  pose (l := js "topic: 'teric.orchestrator', name: 'app-code-review'").
  assert (Hs : mentions (js "Source") l = false) by reflexivity.
  assert (Hf : mentions (js "FunctionName") l = false) by reflexivity.
  destruct (keyword_required (js "src/events.ts") l 0 ([], [])) as [Hv Hw].
  split; [exact Hs|]. split; [exact (Hw Hs)|]. split; [exact Hf|].
  specialize (Hv Hf). vm_compute. reflexivity.
Defined.

(* ================================================================= *)
(** ** The assignment shape of the function-name and event-source checks *)

Lemma quotes_accepted (a : Atom) (q : N) :
  forallb (atomMatches true a) quotes = true -> isQuote q = true ->
  atomMatches true a q = true.
Proof.
  intros H Hq. rewrite forallb_forall in H. apply H. now apply isQuote_In.
Qed.

Lemma nameThenQuote_match (name v : jsstr) (r : list Term) (q : N) (post : jsstr) :
  nameThenQuote name r = true -> spells name v -> isQuote q = true ->
  matchHere true r (v ++ q :: post) = true.
Proof.
  intros Hr Hv Hq. revert r Hr. induction Hv as [|p c name v Hpc Hv IH]; intros r Hr.
  - cbn [nameThenQuote] in Hr. destruct r as [|[a k] r]; [discriminate|].
    destruct k; try discriminate. destruct r; [|discriminate].
    cbn [app]. rewrite matchHere_one_unfold, (quotes_accepted a q Hr Hq).
    reflexivity.
  - cbn [nameThenQuote] in Hr. destruct r as [|[a k] r]; [discriminate|].
    destruct a as [x| |items]; try discriminate; destruct k; try discriminate.
    + apply andb_true_iff in Hr as [Hr Hrest].
      apply andb_true_iff in Hr as [Hdot Hx].
      apply negb_true_iff in Hdot. apply N.eqb_eq in Hx. subst x.
      rewrite Hdot in Hpc.
      cbn [app]. rewrite matchHere_one_unfold. cbn [atomMatches].
      unfold charMatches, canonicalize. rewrite Hpc, N.eqb_refl.
      exact (IH r Hrest).
    + apply andb_true_iff in Hr as [Hdot Hrest]. rewrite Hdot in Hpc.
      cbn [app]. rewrite matchHere_one_unfold. cbn [atomMatches].
      rewrite Hpc. exact (IH r Hrest).
Qed.

Lemma separator_accepted (sep : Atom) (c : N) :
  forallb (fun it => match sep with
                     | AClass items => existsb (fun x =>
                         match x, it with
                         | CChar a, CChar b => N.eqb a b
                         | CSpace, CSpace => true
                         | _, _ => false
                         end) items
                     | _ => false
                     end) [CChar squote; CChar dquote; CSpace; CChar 58] = true ->
  isSeparator c = true -> atomMatches true sep c = true.
Proof.
  intros H Hc. destruct sep as [p| |items]; try discriminate.
  cbn [atomMatches].
  assert (Hfind : forall it, In it [CChar squote; CChar dquote; CSpace; CChar 58%N] ->
                  itemMatches true it c = true ->
                  existsb (fun x => itemMatches true x c) items = true).
  { intros it Hin Hit. rewrite forallb_forall in H. specialize (H it Hin).
    apply existsb_exists in H as (x & Hx & Hxit).
    apply existsb_exists. exists x. split; [assumption|].
    destruct x as [a|], it as [b|]; try discriminate.
    - apply N.eqb_eq in Hxit. now subst.
    - assumption. }
  unfold isSeparator in Hc.
  apply orb_true_iff in Hc as [Hc|Hc]; [apply orb_true_iff in Hc as [Hc|Hc];
    [apply orb_true_iff in Hc as [Hc|Hc]|]|].
  - apply N.eqb_eq in Hc. subst c. apply (Hfind (CChar squote)); cbn; auto.
  - apply N.eqb_eq in Hc. subst c. apply (Hfind (CChar dquote)); cbn; auto.
  - apply (Hfind CSpace); cbn; auto.
  - apply N.eqb_eq in Hc. subst c. apply (Hfind (CChar 58%N)); cbn; auto.
Qed.

Lemma plus_consume (a : Atom) (r : list Term) (seps rest : jsstr) :
  seps <> [] -> forallb (atomMatches true a) seps = true ->
  matchHere true r rest = true ->
  matchHere true ((a, Plus) :: r) (seps ++ rest) = true.
Proof.
  intros Hne Hs Hr. induction seps as [|c seps IH]; [congruence|].
  cbn [forallb] in Hs. apply andb_true_iff in Hs as [Hc Hs].
  cbn [app]. rewrite matchHere_plus_unfold, Hc. cbn [andb].
  destruct seps as [|d seps].
  - cbn [app]. rewrite Hr. apply orb_true_r.
  - rewrite IH; [reflexivity|discriminate|assumption].
Qed.

Lemma keywordShape_match (keyword name : jsstr) (r : list Term)
    (kw seps v post : jsstr) (q1 q2 : N) :
  keywordShape keyword name r = true ->
  sameUpToCase kw keyword ->
  seps <> [] -> forallb isSeparator seps = true ->
  isQuote q1 = true -> spells name v -> isQuote q2 = true ->
  matchHere true r (kw ++ seps ++ q1 :: v ++ q2 :: post) = true.
Proof.
  intros Hr Hkw Hne Hseps Hq1 Hv Hq2. unfold sameUpToCase in Hkw.
  revert r kw Hr Hkw. induction keyword as [|c keyword IH]; intros r kw Hr Hkw.
  - destruct kw; [|discriminate]. cbn [keywordShape] in Hr.
    destruct r as [|[sep k] r]; [discriminate|]. destruct k; try discriminate.
    destruct r as [|[q k] r]; [discriminate|]. destruct k; try discriminate.
    apply andb_true_iff in Hr as [Hr Hname].
    apply andb_true_iff in Hr as [Hq Hsep].
    cbn [app]. apply plus_consume; [assumption| |].
    + apply forallb_forall. intros x Hx. rewrite forallb_forall in Hseps.
      exact (separator_accepted sep x Hsep (Hseps x Hx)).
    + rewrite matchHere_one_unfold, (quotes_accepted q q1 Hq Hq1). cbn [andb].
      exact (nameThenQuote_match name v r q2 post Hname Hv Hq2).
  - destruct kw as [|x kw]; [discriminate|]. cbn [map] in Hkw.
    injection Hkw as Hx Hkw. cbn [keywordShape] in Hr.
    destruct r as [|[a k] r]; [discriminate|].
    destruct a as [p| |items]; try discriminate. destruct k; try discriminate.
    apply andb_true_iff in Hr as [Hp Hr]. apply N.eqb_eq in Hp. subst p.
    cbn [app]. rewrite matchHere_one_unfold. cbn [atomMatches].
    unfold charMatches, canonicalize. rewrite Hx, N.eqb_refl. cbn [andb].
    exact (IH r kw Hr Hkw).
Qed.

Lemma hasKeywordShape_test (keyword name pattern flags : jsstr)
    (pre kw seps v post : jsstr) (q1 q2 : N) :
  hasKeywordShape keyword name pattern flags = true ->
  sameUpToCase kw keyword ->
  seps <> [] -> forallb isSeparator seps = true ->
  isQuote q1 = true -> spells name v -> isQuote q2 = true ->
  regexTest pattern flags (pre ++ kw ++ seps ++ q1 :: v ++ q2 :: post) = true.
Proof.
  unfold hasKeywordShape, regexTest.
  destruct (newRegExp pattern flags) as [[r i]|]; [|discriminate].
  cbn [terms ignoreCase]. unfold test. cbn [terms ignoreCase].
  intros H Hkw Hne Hseps Hq1 Hv Hq2. apply andb_true_iff in H as [-> Hr].
  apply search_app_l, search_here.
  now apply (keywordShape_match keyword name).
Qed.

Lemma registry_keywordShape :
  forallb (fun t => hasKeywordShape (js "FunctionName") t (invokePattern t) (js "i"))
    KNOWN_LAMBDA_PATTERNS
  && forallb (fun t => hasKeywordShape (js "Source") t (sourcePattern t) (js "i"))
       KNOWN_EVENT_SOURCES
  = true.
Proof. vm_compute. reflexivity. Qed.

(** X3. The function-name pattern matches every line that holds, anywhere, the
    keyword [FunctionName] in any letter case, then one or more of single
    quote, double quote, white space and colon, then the name in any letter
    case between two of the three quote characters; the event-source
    pattern does so with the keyword [Source], and a dot of the event source
    stands for any character that is not a line terminator. *)
Theorem assignment_shape_matches :
  (forall name pre kw seps q1 v q2 post,
      In name KNOWN_LAMBDA_PATTERNS ->
      sameUpToCase kw (js "FunctionName") ->
      seps <> [] -> forallb isSeparator seps = true ->
      isQuote q1 = true -> spells name v -> isQuote q2 = true ->
      regexTest (invokePattern name) (js "i")
        (pre ++ kw ++ seps ++ q1 :: v ++ q2 :: post) = true)
  /\ (forall name pre kw seps q1 v q2 post,
      In name KNOWN_EVENT_SOURCES ->
      sameUpToCase kw (js "Source") ->
      seps <> [] -> forallb isSeparator seps = true ->
      isQuote q1 = true -> spells name v -> isQuote q2 = true ->
      regexTest (sourcePattern name) (js "i")
        (pre ++ kw ++ seps ++ q1 :: v ++ q2 :: post) = true).
Proof.
  pose proof registry_keywordShape as H. apply andb_true_iff in H as [Hl Hs].
  rewrite forallb_forall in Hl, Hs. split.
  - intros name pre kw seps q1 v q2 post Hin. apply hasKeywordShape_test. auto.
  - intros name pre kw seps q1 v q2 post Hin. apply hasKeywordShape_test. auto.
Qed.

Lemma spells_dec_witness :
  spells (js "teric.orchestrator") (js "Teric-Orchestrator").
Proof. repeat constructor. Defined.

Lemma assignment_shape_matches_witness :
  regexTest (sourcePattern (js "teric.orchestrator")) (js "i")
    (js "  " ++ js "source" ++ js " : " ++ squote :: js "Teric-Orchestrator"
     ++ backtick :: js ",") = true.
Proof.
  destruct assignment_shape_matches as [_ Hs].
  apply Hs; try reflexivity.
  - apply existsb_eqb_In. reflexivity.
  - discriminate.
  - exact spells_dec_witness.
Defined.

(* ================================================================= *)
(** ** Comment lines *)

Lemma trimStart_spaces (ws s : jsstr) :
  forallb isSpace ws = true -> trimStart (ws ++ s) = trimStart s.
Proof.
  induction ws as [|c ws IH]; intros H; [reflexivity|].
  cbn [forallb] in H. apply andb_true_iff in H as [Hc H].
  cbn [app trimStart]. rewrite Hc. now apply IH.
Qed.

Lemma trimStart_keeps (a : jsstr) (c : N) (b : jsstr) :
  isSpace c = false -> exists a', trimStart (a ++ c :: b) = a' ++ c :: b.
Proof.
  intros Hc. induction a as [|x a IH].
  - exists []. cbn [app trimStart]. now rewrite Hc.
  - cbn [app trimStart]. destruct (isSpace x).
    + exact IH.
    + now exists (x :: a).
Qed.

(** Trimming the end keeps everything up to a character that is not white
    space. *)
Lemma trimEnd_keeps (p : jsstr) (c : N) (x : jsstr) :
  isSpace c = false -> exists x', trimEnd (p ++ c :: x) = p ++ c :: x'.
Proof.
  intros Hc. unfold trimEnd.
  rewrite rev_app_distr. cbn [rev]. rewrite <- app_assoc. cbn [app].
  destruct (trimStart_keeps (rev x) c (rev p) Hc) as (a' & Ha).
  rewrite Ha, rev_app_distr. cbn [rev]. rewrite rev_involutive, <- app_assoc.
  now exists (rev a').
Qed.

Lemma startsWith_app (p s : jsstr) : startsWith p (p ++ s) = true.
Proof.
  induction p as [|c p IH]; [reflexivity|].
  cbn [app startsWith]. now rewrite N.eqb_refl, IH.
Qed.

Lemma isComment_marker (ws marker rest : jsstr) :
  forallb isSpace ws = true ->
  In marker [js "//"; js "#"; js "*"] ->
  isComment (ws ++ marker ++ rest) = true.
Proof.
  intros Hws Hm. unfold isComment, trim. rewrite (trimStart_spaces ws _ Hws).
  destruct Hm as [<-|[<-|[<-|[]]]].
  - change (js "//" ++ rest) with ([47; 47]%N ++ rest).
    cbn [app trimStart]. change (isSpace 47) with false. cbv iota.
    destruct (trimEnd_keeps [47%N] 47%N rest eq_refl) as (x' & Hx).
    cbn [app] in Hx. rewrite Hx. reflexivity.
  - change (js "#" ++ rest) with (35%N :: rest).
    cbn [trimStart]. change (isSpace 35) with false. cbv iota.
    destruct (trimEnd_keeps [] 35%N rest eq_refl) as (x' & Hx).
    cbn [app] in Hx. rewrite Hx. reflexivity.
  - change (js "*" ++ rest) with (42%N :: rest).
    cbn [trimStart]. change (isSpace 42) with false. cbv iota.
    destruct (trimEnd_keeps [] 42%N rest eq_refl) as (x' & Hx).
    cbn [app] in Hx. rewrite Hx. reflexivity.
Qed.

(** X4. A line whose first characters after any white space are [//], [#] or
    [*] gives no finding, whatever follows on the line. *)
Theorem comment_line_skipped (filePath ws marker rest : jsstr) (index : nat)
    (st : Findings) :
  forallb isSpace ws = true ->
  In marker [js "//"; js "#"; js "*"] ->
  scanLine filePath (ws ++ marker ++ rest) index st = st.
Proof.
  intros Hws Hm. unfold scanLine.
  now rewrite (isComment_marker ws marker rest Hws Hm).
Qed.

Lemma comment_line_skipped_witness :
  scanLine (js "src/handler.ts")
    (js "    " ++ js "//" ++ js " table: 'teric-agentic-work-items'") 3 ([], [])
  = ([], []).
Proof.
  apply comment_line_skipped; [reflexivity|left; reflexivity].
Defined.

(* ================================================================= *)
(** ** The findings of a file *)

Lemma forEachIndexed_scanLine (filePath : jsstr) (lines : list jsstr) (index : nat)
    (st : Findings) :
  forEachIndexed lines index (scanLine filePath) st =
  (fst st ++ fst (linesFindings filePath lines index),
   snd st ++ snd (linesFindings filePath lines index)).
Proof.
  revert index st. induction lines as [|l lines IH]; intros index [vs ws].
  - cbn. now rewrite !app_nil_r.
  - cbn [forEachIndexed linesFindings]. rewrite IH, scanLine_lineFindings.
    cbn [fst snd]. now rewrite <- !app_assoc.
Qed.

Lemma scanFile_linesFindings (w : World) (filePath content : jsstr) :
  readFileSync w filePath = Ok content ->
  scanFile w filePath = linesFindings filePath (split_lines content) 0.
Proof.
  intros H. unfold scanFile. rewrite H, forEachIndexed_scanLine.
  now destruct (linesFindings filePath (split_lines content) 0).
Qed.

Lemma linesFindings_In (filePath : jsstr) (lines : list jsstr) (index : nat)
    (f : Finding) :
  In f (fst (linesFindings filePath lines index))
  \/ In f (snd (linesFindings filePath lines index)) ->
  exists k l,
    nth_error lines k = Some l
    /\ (In f (fst (lineFindings filePath l (index + k)))
        \/ In f (snd (lineFindings filePath l (index + k)))).
Proof.
  revert index. induction lines as [|l lines IH]; intros index H.
  - cbn in H. tauto.
  - cbn [linesFindings fst snd] in H.
    assert (Hc : (In f (fst (lineFindings filePath l index))
                  \/ In f (snd (lineFindings filePath l index)))
                 \/ (In f (fst (linesFindings filePath lines (S index)))
                     \/ In f (snd (linesFindings filePath lines (S index))))).
    { destruct H as [H|H]; apply in_app_or in H; tauto. }
    destruct Hc as [Hc|Hc].
    + exists 0, l. rewrite Nat.add_0_r. split; [reflexivity|assumption].
    + destruct (IH (S index) Hc) as (k & l' & Hk & Hin).
      exists (S k), l'. rewrite Nat.add_succ_r. split; assumption.
Qed.

Lemma lineFindings_fields (filePath line : jsstr) (index : nat) (f : Finding) :
  In f (fst (lineFindings filePath line index))
  \/ In f (snd (lineFindings filePath line index)) ->
  file f = Some filePath
  /\ Scanner.line f = Some (index + 1)
  /\ snippet f = Some (substring0 100 (trim line)).
Proof.
  unfold lineFindings. destruct (isComment line); [cbn; tauto|].
  cbn [fst snd]. intros [H|H].
  - apply in_app_or in H as [H|H].
    + destruct (contractOrTestPath filePath); [contradiction|].
      apply in_map_iff in H as (t & <- & _). repeat split.
    + destruct (contractOrDotTestPath filePath); [contradiction|].
      apply in_map_iff in H as (t & <- & _). repeat split.
  - destruct (contractOrDotTestPath filePath); [contradiction|].
    apply in_map_iff in H as (t & <- & _). repeat split.
Qed.

(** X5. Every finding of a file that could be read names the file, carries the
    1-based number of a line of the file, and quotes that line: its snippet
    is the first 100 characters of the trimmed line, so never longer than
    100. *)
Theorem finding_points_to_its_line (w : World) (filePath content : jsstr)
    (f : Finding) :
  readFileSync w filePath = Ok content ->
  In f (fst (scanFile w filePath)) \/ In f (snd (scanFile w filePath)) ->
  exists n l s,
    1 <= n <= List.length (split_lines content)
    /\ nth_error (split_lines content) (n - 1) = Some l
    /\ file f = Some filePath
    /\ Scanner.line f = Some n
    /\ snippet f = Some s
    /\ s = substring0 100 (trim l)
    /\ List.length s <= 100.
Proof.
  intros Hread Hin. rewrite (scanFile_linesFindings w filePath content Hread) in Hin.
  destruct (linesFindings_In filePath _ 0 f Hin) as (k & l & Hk & Hl).
  destruct (lineFindings_fields filePath l (0 + k) f Hl) as (Hf & Hn & Hs).
  exists (k + 1), l, (substring0 100 (trim l)).
  assert (Hlt : k < List.length (split_lines content)).
  { apply nth_error_Some. congruence. }
  repeat split; try assumption; try lia.
  - now replace (k + 1 - 1) with k by lia.
  - unfold substring0. apply firstn_le_length.
Qed.

Lemma finding_points_to_its_line_witness :
  exists n l s,
    nth_error (split_lines (js "const table = 'teric-agentic-work-items';")) (n - 1) = Some l
    /\ Scanner.line (tableViolation (js "src/handler.ts")
                       (js "const table = 'teric-agentic-work-items';") 1
                       (js "teric-agentic-work-items")) = Some n
    /\ s = substring0 100 (trim l)
    /\ List.length s <= 100.
Proof.
  assert (Hin : In (tableViolation (js "src/handler.ts")
                      (js "const table = 'teric-agentic-work-items';") 1
                      (js "teric-agentic-work-items"))
                  (fst (scanFile fixtureWorld (js "src/handler.ts"))))
    by (vm_compute; left; reflexivity).
  destruct (finding_points_to_its_line fixtureWorld (js "src/handler.ts")
              (js "const table = 'teric-agentic-work-items';") _ eq_refl
              (or_introl Hin))
    as (n & l & s & _ & Hl & _ & Hn & _ & Hs & Hlen).
  exists n, l, s. split; [exact Hl|]. split; [exact Hn|]. split; [exact Hs|exact Hlen].
Defined.

(** X6. A readable file under a contracts directory, or with [.test.] or
    [.spec.] in its path, gives no finding at all. *)
Theorem contract_and_test_files_clean (w : World) (filePath content : jsstr) :
  readFileSync w filePath = Ok content ->
  contractOrDotTestPath filePath = true ->
  scanFile w filePath = ([], []).
Proof.
  intros Hread Hp. unfold scanFile. rewrite Hread.
  generalize 0. generalize (split_lines content).
  intros lines. induction lines as [|l lines IH]; intros index; [reflexivity|].
  cbn [forEachIndexed].
  rewrite (contract_and_dot_test_paths_suppressed filePath l index ([], []) Hp).
  apply IH.
Qed.

Lemma contract_and_test_files_clean_witness :
  scanFile (worldOf [(js "src/handler.spec.ts", tableLine ++ [newline] ++ lambdaLine)]
              [] (Ok minimalConfig))
    (js "src/handler.spec.ts") = ([], []).
Proof.
  apply (contract_and_test_files_clean _ _ (tableLine ++ [newline] ++ lambdaLine));
    reflexivity.
Defined.

(** In a readable file, the violations are error-severity findings of a
    table or function name, and the warnings are warning-severity findings
    of an event source. *)
Theorem scanFile_kinds (w : World) (filePath content : jsstr) (f : Finding) :
  readFileSync w filePath = Ok content ->
  (In f (fst (scanFile w filePath)) ->
   severity f = sev_error
   /\ (type f = hardcoded_table_name \/ type f = hardcoded_lambda_name))
  /\ (In f (snd (scanFile w filePath)) ->
      severity f = sev_warning /\ type f = hardcoded_event_source).
Proof.
  intros Hread. rewrite (scanFile_linesFindings w filePath content Hread).
  generalize 0. generalize (split_lines content). intros lines.
  induction lines as [|l lines IH]; intros index; [cbn; tauto|].
  cbn [linesFindings fst snd]. specialize (IH (S index)). destruct IH as [IHv IHw].
  split; intros H; apply in_app_or in H as [H|H]; auto.
  - unfold lineFindings in H. destruct (isComment l); [contradiction|].
    cbn [fst] in H. apply in_app_or in H as [H|H].
    + destruct (contractOrTestPath filePath); [contradiction|].
      apply in_map_iff in H as (t & <- & _). cbn. auto.
    + destruct (contractOrDotTestPath filePath); [contradiction|].
      apply in_map_iff in H as (t & <- & _). cbn. auto.
  - unfold lineFindings in H. destruct (isComment l); [contradiction|].
    cbn [snd] in H. destruct (contractOrDotTestPath filePath); [contradiction|].
    apply in_map_iff in H as (t & <- & _). cbn. auto.
Qed.

(* ================================================================= *)
(** ** The enumeration of source files *)

(** Induction on a directory entry, with the hypothesis for every entry of
    a listed directory. *)
Lemma Dirent_nested_ind (P : Dirent -> Prop) :
  (forall name, P (DirentFile name)) ->
  (forall name, P (DirentOther name)) ->
  (forall name e, P (DirentDirectory name (Throw e))) ->
  (forall name items, Forall P items -> P (DirentDirectory name (Ok items))) ->
  forall d, P d.
Proof.
  intros Hf Ho Ht Hd.
  exact (fix F (d : Dirent) : P d :=
           match d with
           | DirentFile name => Hf name
           | DirentOther name => Ho name
           | DirentDirectory name (Throw e) => Ht name e
           | DirentDirectory name (Ok items) =>
               Hd name items
                 ((fix G (l : list Dirent) : Forall P l :=
                     match l with
                     | [] => Forall_nil P
                     | x :: l' => Forall_cons x (F x) (G l')
                     end) items)
           end).
Qed.

(** *** Joining a directory and a file name *)

Lemma startsWith_iff (p s : jsstr) :
  startsWith p s = true <-> exists t, s = p ++ t.
Proof.
  revert s. induction p as [|c p IH]; intros s.
  - split; [intros _; now exists s|reflexivity].
  - destruct s as [|x s]; cbn [startsWith].
    + split; [discriminate|intros (t & Ht); discriminate].
    + rewrite andb_true_iff, N.eqb_eq, IH. split.
      * intros (-> & t & ->). now exists t.
      * intros (t & Ht). cbn [app] in Ht. injection Ht as -> ->. split; eauto.
Qed.

Lemma endsWith_iff (p s : jsstr) :
  endsWith p s = true <-> exists x, s = x ++ p.
Proof.
  unfold endsWith. rewrite startsWith_iff. split.
  - intros (t & Ht). exists (rev t).
    rewrite <- (rev_involutive s), Ht, rev_app_distr. now rewrite rev_involutive.
  - intros (x & ->). exists (rev x). now rewrite rev_app_distr.
Qed.

Section Segments.

Variable sep : N.

Lemma splitOn_nonempty (s : jsstr) : Path.splitOn sep s <> [].
Proof.
  destruct s as [|c s]; cbn [Path.splitOn]; [discriminate|].
  destruct (N.eqb c sep); [discriminate|].
  destruct (Path.splitOn sep s); discriminate.
Qed.

Lemma splitOn_sepFree (s : jsstr) : sepFree sep s = true -> Path.splitOn sep s = [s].
Proof.
  induction s as [|c s IH]; intros H; [reflexivity|].
  cbn [sepFree forallb] in H. apply andb_true_iff in H as [Hc H].
  apply negb_true_iff in Hc. cbn [Path.splitOn]. now rewrite Hc, (IH H).
Qed.

Lemma splitOn_app (a b : jsstr) :
  Path.splitOn sep (a ++ sep :: b) = Path.splitOn sep a ++ Path.splitOn sep b.
Proof.
  induction a as [|c a IH].
  - cbn [app Path.splitOn]. now rewrite N.eqb_refl.
  - cbn [app Path.splitOn]. destruct (N.eqb c sep); [now rewrite IH|].
    rewrite IH. pose proof (splitOn_nonempty a) as Hne.
    destruct (Path.splitOn sep a) as [|l ls]; [congruence|reflexivity].
Qed.

(** A text is free of the separator or ends with a last piece after one. *)
Lemma last_piece (s : jsstr) :
  sepFree sep s = true
  \/ exists a l, s = a ++ sep :: l /\ sepFree sep l = true.
Proof.
  induction s as [|c s IH]; [now left|].
  destruct IH as [Hfree|(a & l & -> & Hl)].
  - destruct (N.eqb c sep) eqn:Hc.
    + right. apply N.eqb_eq in Hc. subst c. now exists [], s.
    + left. cbn [sepFree forallb]. now rewrite Hc.
  - right. now exists (c :: a), l.
Qed.

(** The pieces of a text end with a piece that ends as the text does. *)
Lemma splitOn_last (s ext : jsstr) :
  sepFree sep ext = true -> ext <> [] -> (exists x, s = x ++ ext) ->
  exists init y, Path.splitOn sep s = init ++ [y ++ ext].
Proof.
  intros Hext Hne (x & Hx).
  destruct (last_piece s) as [Hfree|(a & l & Hs & Hl)].
  - exists [], x. now rewrite (splitOn_sepFree s Hfree), Hx.
  - rewrite Hs in Hx. apply app_eq_app in Hx as (k & [(Ha & He)|(Hxa & Hl')]).
    + exfalso. rewrite He in Hext. unfold sepFree in Hext.
      rewrite forallb_app in Hext. cbn [forallb] in Hext.
      rewrite N.eqb_refl in Hext. cbn [negb andb] in Hext.
      now rewrite andb_false_r in Hext.
    + destruct k as [|c k].
      * exfalso. cbn [app] in Hl'. rewrite <- Hl' in Hext.
        cbn [sepFree forallb] in Hext. rewrite N.eqb_refl in Hext. discriminate.
      * cbn [app] in Hl'. injection Hl' as Hc Hl'. subst c l.
        exists (Path.splitOn sep a), k.
        now rewrite Hs, splitOn_app, (splitOn_sepFree _ Hl).
Qed.

End Segments.

Lemma normalizeSegments_last (allow : bool) (init kept : list jsstr) (l : jsstr) :
  eqb l [] = false -> eqb l (js ".") = false -> eqb l (js "..") = false ->
  exists pre, Path.normalizeSegments allow (init ++ [l]) kept = pre ++ [l].
Proof.
  intros H0 H1 H2. revert kept. induction init as [|seg init IH]; intros kept.
  - cbn [app Path.normalizeSegments]. rewrite H0, H1, H2. cbn [orb rev].
    now exists (rev kept).
  - cbn [app Path.normalizeSegments].
    destruct (eqb seg [] || eqb seg (js ".")); [apply IH|].
    destruct (eqb seg (js "..")); [|apply IH].
    destruct kept as [|top below]; [apply IH|].
    destruct (eqb top (js "..")); apply IH.
Qed.

Lemma joinSlash_last (pre : list jsstr) (l : jsstr) :
  exists z, Path.joinSlash (pre ++ [l]) = z ++ l.
Proof.
  induction pre as [|seg pre (z & IH)]; [now exists []|].
  cbn [app Path.joinSlash]. rewrite IH.
  destruct (pre ++ [l]) eqn:E; [now destruct pre|].
  exists (seg ++ Path.slash :: z). now rewrite <- app_assoc.
Qed.

Lemma plainSuffix_last (ext : jsstr) :
  plainSuffix ext = true ->
  exists e c, ext = e ++ [c] /\ c <> 46%N /\ sepFree Path.slash ext = true.
Proof.
  unfold plainSuffix. destruct (rev ext) as [|c r] eqn:E; [discriminate|].
  intros H. apply andb_true_iff in H as [Hc Hfree].
  exists (rev r), c. repeat split; [|now apply N.eqb_neq, negb_true_iff|assumption].
  now rewrite <- (rev_involutive ext), E.
Qed.

Lemma ends_with_char_neq (y e t : jsstr) (c d : N) :
  c <> d -> eqb (y ++ e ++ [c]) (t ++ [d]) = false.
Proof.
  intros Hcd. destruct (eqb (y ++ e ++ [c]) (t ++ [d])) eqn:E; [|reflexivity].
  apply eqb_eq in E. rewrite app_assoc in E.
  apply app_inj_tail in E as [_ E]. congruence.
Qed.

(** Normalising a path keeps an extension it ends with. *)
Lemma normalize_keeps_extension (ext p : jsstr) :
  plainSuffix ext = true -> endsWith ext p = true ->
  endsWith ext (Path.normalize p) = true.
Proof.
  intros Hplain Hends.
  destruct (plainSuffix_last ext Hplain) as (e & c & He & Hc & Hfree).
  apply endsWith_iff in Hends. apply endsWith_iff.
  assert (Hne : ext <> []) by (rewrite He; now destruct e).
  destruct (splitOn_last Path.slash p ext Hfree Hne Hends) as (init & y & Hsplit).
  destruct Hends as (x & Hp).
  assert (Hslash : c <> Path.slash).
  { intros ->. rewrite He in Hfree. unfold sepFree in Hfree.
    rewrite forallb_app in Hfree. cbn [forallb] in Hfree.
    rewrite N.eqb_refl in Hfree. cbn [negb andb] in Hfree.
    now rewrite andb_false_r in Hfree. }
  assert (H0 : eqb (y ++ ext) [] = false).
  { rewrite He. destruct (y ++ e ++ [c]) eqn:E; [|reflexivity].
    apply app_eq_nil in E as [_ E]. now apply app_eq_nil in E as [_ E]. }
  assert (H1 : eqb (y ++ ext) (js ".") = false).
  { rewrite He. exact (ends_with_char_neq y e [] c 46%N Hc). }
  assert (H2 : eqb (y ++ ext) (js "..") = false).
  { rewrite He. exact (ends_with_char_neq y e [46%N] c 46%N Hc). }
  unfold Path.normalize. destruct p as [|p0 p']; [now destruct x, ext|].
  cbv zeta. rewrite Hsplit.
  remember (Path.normalizeSegments _ _ _) as segs eqn:Hsegs.
  destruct (normalizeSegments_last (negb (startsWith [Path.slash] (p0 :: p')))
              init [] (y ++ ext) H0 H1 H2) as (pre & Hpre).
  assert (Es : segs = pre ++ [y ++ ext]) by (rewrite Hsegs; exact Hpre).
  clear Hsegs Hpre. subst segs.
  remember (Path.joinSlash _) as body eqn:Hbody.
  destruct (joinSlash_last pre (y ++ ext)) as (z & Hz).
  assert (Eb : body = z ++ y ++ ext) by (rewrite Hbody; exact Hz).
  clear Hbody Hz.
  assert (Htrail : endsWith [Path.slash] (p0 :: p') = false).
  { destruct (endsWith [Path.slash] (p0 :: p')) eqn:E; [|reflexivity].
    apply endsWith_iff in E as (x' & Hx'). rewrite Hp, He, !app_assoc in Hx'.
    apply app_inj_tail in Hx' as [_ Hx']. congruence. }
  rewrite Htrail.
  destruct body as [|b body].
  - symmetry in Eb. apply app_eq_nil in Eb as [_ Eb].
    apply app_eq_nil in Eb as [_ Eb]. contradiction.
  - rewrite Eb, app_nil_r.
    exists ((if startsWith [Path.slash] (p0 :: p') then [Path.slash] else []) ++ z ++ y).
    now rewrite <- !app_assoc.
Qed.

(** [path.join(dir, name)] ends with the extension [name] ends with. *)
Lemma join_keeps_extension (ext dir name : jsstr) :
  plainSuffix ext = true -> endsWith ext name = true ->
  endsWith ext (pathJoin dir name) = true.
Proof.
  intros Hplain Hends. unfold pathJoin, Path.join.
  destruct name as [|n name].
  - exfalso. apply endsWith_iff in Hends as (x & Hx).
    destruct (plainSuffix_last ext Hplain) as (e & c & -> & _).
    symmetry in Hx. apply app_eq_nil in Hx as [_ Hx]. now destruct e.
  - destruct dir as [|d dir]; apply normalize_keeps_extension; try assumption.
    apply endsWith_iff. apply endsWith_iff in Hends as (x & Hx).
    exists ((d :: dir) ++ Path.slash :: x). rewrite Hx.
    rewrite <- app_assoc. reflexivity.
Qed.

Section Enumeration.

Variables (w : World) (extensions : list jsstr).

(** Entering a listed directory is the loop over its entries. *)
Lemma visitItem_directory (dir name : jsstr) (items : list Dirent) :
  visitItem w extensions dir (DirentDirectory name (Ok items)) =
  if negb (arrayIncludes skippedDirectories name) then
    if negb (existsSync w (pathJoin dir name)) then Ok []
    else visitItems w extensions (pathJoin dir name) items
  else Ok [].
Proof.
  cbn [visitItem direntName].
  destruct (negb (arrayIncludes skippedDirectories name)); [|reflexivity].
  destruct (negb (existsSync w (pathJoin dir name))); [reflexivity|].
  induction items as [|i items IH]; [reflexivity|].
  cbn [visitItems]. now rewrite IH.
Qed.

Lemma reaches_incl (dir : jsstr) (items items' : list Dirent) (f : jsstr) :
  incl items items' ->
  reaches w extensions dir items f -> reaches w extensions dir items' f.
Proof.
  intros Hincl H. destruct H as [dir items name Hin Hext|dir items name below f Hin Hs He Hr].
  - apply reaches_file; auto.
  - eapply reaches_below; eauto.
Qed.

Lemma visitItems_cons (dir : jsstr) (i : Dirent) (rest : list Dirent)
    (files : list jsstr) :
  visitItems w extensions dir (i :: rest) = Ok files ->
  exists found more,
    visitItem w extensions dir i = Ok found
    /\ visitItems w extensions dir rest = Ok more
    /\ files = found ++ more.
Proof.
  cbn [visitItems]. unfold bind.
  destruct (visitItem w extensions dir i) as [found|e]; [|discriminate].
  destruct (visitItems w extensions dir rest) as [more|e]; [|discriminate].
  intros H. injection H as <-. now exists found, more.
Qed.

Lemma visitItem_sound (item : Dirent) :
  forall dir files f,
    visitItem w extensions dir item = Ok files -> In f files ->
    reaches w extensions dir [item] f.
Proof.
  induction item as [name|name|name e|name items IH] using Dirent_nested_ind;
    intros dir files f Hv Hin.
  - cbn [visitItem direntName] in Hv.
    destruct (existsb (fun ext => endsWith ext name) extensions) eqn:Hext;
      injection Hv as <-; [|contradiction].
    destruct Hin as [<-|[]]. apply reaches_file; [now left|assumption].
  - cbn in Hv. injection Hv as <-. contradiction.
  - cbn [visitItem direntName] in Hv.
    destruct (negb (arrayIncludes skippedDirectories name));
      [destruct (negb (existsSync w (pathJoin dir name)))|];
      try discriminate; injection Hv as <-; contradiction.
  - rewrite visitItem_directory in Hv.
    destruct (arrayIncludes skippedDirectories name) eqn:Hs; cbn [negb] in Hv;
      [injection Hv as <-; contradiction|].
    destruct (existsSync w (pathJoin dir name)) eqn:He; cbn [negb] in Hv;
      [|injection Hv as <-; contradiction].
    apply reaches_below with (name := name) (below := items);
      [now left|assumption|assumption|].
    clear Hs He. revert files Hv Hin.
    induction IH as [|i rest Hi Hrest IHrest]; intros files Hv Hin.
    + cbn in Hv. injection Hv as <-. contradiction.
    + destruct (visitItems_cons _ _ _ _ Hv) as (found & more & Hf & Hm & ->).
      apply in_app_or in Hin as [Hin|Hin].
      * apply (reaches_incl _ [i]); [|exact (Hi _ _ _ Hf Hin)].
        intros x [<-|[]]. now left.
      * apply (reaches_incl _ rest); [|exact (IHrest _ Hm Hin)].
        intros x Hx. now right.
Qed.

Lemma visitItems_sound (dir : jsstr) (items : list Dirent) (files : list jsstr)
    (f : jsstr) :
  visitItems w extensions dir items = Ok files -> In f files ->
  reaches w extensions dir items f.
Proof.
  revert files. induction items as [|i rest IH]; intros files Hv Hin.
  - cbn in Hv. injection Hv as <-. contradiction.
  - destruct (visitItems_cons _ _ _ _ Hv) as (found & more & Hf & Hm & ->).
    apply in_app_or in Hin as [Hin|Hin].
    + apply (reaches_incl _ [i]); [|exact (visitItem_sound i _ _ _ Hf Hin)].
      intros x [<-|[]]. now left.
    + apply (reaches_incl _ rest); [|exact (IH _ Hm Hin)].
      intros x Hx. now right.
Qed.

Lemma visitItems_In (dir : jsstr) (items : list Dirent) (files : list jsstr)
    (item : Dirent) :
  visitItems w extensions dir items = Ok files -> In item items ->
  exists found, visitItem w extensions dir item = Ok found /\ incl found files.
Proof.
  revert files. induction items as [|i rest IH]; intros files Hv Hin; [contradiction|].
  destruct (visitItems_cons _ _ _ _ Hv) as (found & more & Hf & Hm & ->).
  destruct Hin as [<-|Hin].
  - exists found. split; [assumption|]. now apply incl_appl.
  - destruct (IH _ Hm Hin) as (found' & Hf' & Hincl).
    exists found'. split; [assumption|]. now apply incl_appr.
Qed.

Lemma visitItems_complete (dir : jsstr) (items : list Dirent) (f : jsstr) :
  reaches w extensions dir items f ->
  forall files, visitItems w extensions dir items = Ok files -> In f files.
Proof.
  induction 1 as [dir items name Hin Hext|dir items name below f Hin Hs He Hr IH];
    intros files Hv.
  - destruct (visitItems_In _ _ _ _ Hv Hin) as (found & Hf & Hincl).
    cbn [visitItem direntName] in Hf. rewrite Hext in Hf. injection Hf as <-.
    apply Hincl. now left.
  - destruct (visitItems_In _ _ _ _ Hv Hin) as (found & Hf & Hincl).
    rewrite visitItem_directory, Hs, He in Hf. cbn [negb] in Hf.
    apply Hincl. exact (IH _ Hf).
Qed.

Lemma startsWith_app_l (p s t : jsstr) :
  startsWith p s = true -> startsWith p (s ++ t) = true.
Proof.
  revert s. induction p as [|c p IH]; intros s H; [reflexivity|].
  destruct s as [|x s]; [discriminate|]. cbn [startsWith app] in *.
  apply andb_true_iff in H as [Hx H]. now rewrite Hx, (IH s H).
Qed.

Lemma startsWith_trans (p q s : jsstr) :
  startsWith p q = true -> startsWith q s = true -> startsWith p s = true.
Proof.
  revert q s. induction p as [|c p IH]; intros q s Hpq Hqs; [reflexivity|].
  destruct q as [|y q]; [discriminate|]. destruct s as [|x s]; [discriminate|].
  cbn [startsWith] in *.
  apply andb_true_iff in Hpq as [Hc Hpq]. apply andb_true_iff in Hqs as [Hy Hqs].
  apply N.eqb_eq in Hc. apply N.eqb_eq in Hy. subst.
  now rewrite N.eqb_refl, (IH q s Hpq Hqs).
Qed.

Lemma endsWith_app (ext p s : jsstr) :
  endsWith ext s = true -> endsWith ext (p ++ s) = true.
Proof.
  unfold endsWith. intros H. rewrite rev_app_distr. now apply startsWith_app_l.
Qed.

Lemma reaches_extension (dir : jsstr) (items : list Dirent) (f : jsstr) :
  forallb plainSuffix extensions = true ->
  reaches w extensions dir items f ->
  existsb (fun ext => endsWith ext f) extensions = true.
Proof.
  intros Hplain.
  induction 1 as [dir items name Hin Hext|dir items name below f Hin Hs He Hr IH].
  - apply existsb_exists in Hext as (ext & Hin' & Hext).
    apply existsb_exists. exists ext. split; [assumption|].
    rewrite forallb_forall in Hplain.
    exact (join_keeps_extension ext dir name (Hplain ext Hin') Hext).
  - exact IH.
Qed.

End Enumeration.

(** X8. When the enumeration of a directory returns, it returns exactly the
    files that [reaches] describes: the regular files with one of the
    extensions [.ts], [.js], [.tsx], [.jsx], in the directory or below it
    through sub-directories that exist and are none of [node_modules],
    [dist], [build], [.git], [coverage], [.next], [.cache]. Each file and
    each sub-directory is named by [path.join] of the directory it was
    listed in and its name, so that a file listed in [./src] is returned
    under [src]. *)
Theorem getSourceFiles_exact (w : World) (dir : jsstr) (files : list jsstr) :
  getSourceFiles w dir = Ok files ->
  forall f,
    In f files <->
    (existsSync w dir = true
     /\ exists items,
         readdirSync w dir = Ok items
         /\ reaches w defaultExtensions dir items f).
Proof.
  unfold getSourceFiles, bind. intros H f.
  destruct (existsSync w dir); cbn [negb] in H.
  - destruct (readdirSync w dir) as [items|e]; [|discriminate]. split.
    + intros Hin. split; [reflexivity|]. exists items. split; [reflexivity|].
      exact (visitItems_sound w _ dir items files f H Hin).
    + intros (_ & items' & Hi & Hr). injection Hi as <-.
      exact (visitItems_complete w _ dir items f Hr files H).
  - injection H as <-. split; [contradiction|]. intros (He & _). discriminate.
Qed.

Lemma getSourceFiles_exact_witness :
  In (js "src/__tests__/invoker.ts")
    (match getSourceFiles (testsDirWorld lambdaLine) (js "src") with
     | Ok files => files
     | Throw _ => []
     end)
  /\ (getSourceFiles dotSrcWorld (js "./src") = Ok [js "src/handler.ts"]
      /\ reaches dotSrcWorld defaultExtensions (js "./src")
           [DirentFile (js "handler.ts"); DirentFile (js "README.md")]
           (js "src/handler.ts")).
Proof.
  split.
  - assert (H : getSourceFiles (testsDirWorld lambdaLine) (js "src")
                = Ok [js "src/__tests__/invoker.ts"]) by reflexivity.
    rewrite H.
    apply (getSourceFiles_exact (testsDirWorld lambdaLine) (js "src") _ H).
    split; [reflexivity|]. eexists. split; [reflexivity|].
    eapply reaches_below; [left; reflexivity|reflexivity|reflexivity|].
    apply reaches_file with (dir := js "src/__tests__") (name := js "invoker.ts");
      [left; reflexivity|reflexivity].
  - assert (H : getSourceFiles dotSrcWorld (js "./src") = Ok [js "src/handler.ts"])
      by reflexivity.
    split; [exact H|].
    destruct (proj1 (getSourceFiles_exact dotSrcWorld (js "./src") _ H
                       (js "src/handler.ts")) (or_introl eq_refl))
      as (_ & items & Hitems & Hreach).
    injection Hitems as <-. exact Hreach.
Defined.

(** X9. Every path the enumeration of a directory returns ends with one of
    the four extensions, whatever the directory it is asked for, also one
    that [path.join] rewrites when it joins it with a name ([./src],
    [src/], [.]). *)
Theorem getSourceFiles_shape (w : World) (dir : jsstr) (files : list jsstr)
    (f : jsstr) :
  getSourceFiles w dir = Ok files -> In f files ->
  existsb (fun ext => endsWith ext f) defaultExtensions = true.
Proof.
  unfold getSourceFiles, bind. intros H Hin.
  destruct (existsSync w dir); cbn [negb] in H;
    [|injection H as <-; contradiction].
  destruct (readdirSync w dir) as [items|e]; [|discriminate].
  apply (reaches_extension w defaultExtensions dir items); [reflexivity|].
  exact (visitItems_sound w _ dir items files f H Hin).
Qed.

Lemma getSourceFiles_shape_witness :
  getSourceFiles dotSrcWorld (js "./src") = Ok [js "src/handler.ts"]
  /\ existsb (fun ext => endsWith ext (js "src/handler.ts")) defaultExtensions = true.
Proof.
  assert (H : getSourceFiles dotSrcWorld (js "./src") = Ok [js "src/handler.ts"])
    by reflexivity.
  split; [exact H|].
  exact (getSourceFiles_shape dotSrcWorld (js "./src") [js "src/handler.ts"]
           (js "src/handler.ts") H (or_introl eq_refl)).
Defined.

(* ================================================================= *)
(** ** Declared contracts *)

Lemma checkDeclaredTable_ok (table : JsValue) (ws : list Finding) :
  declaredTableOk table = true ->
  checkDeclaredTable table ws
  = Ok (ws ++ map invalidContractPath (invalidPaths [table])).
Proof.
  unfold checkDeclaredTable, bind.
  destruct table as [| |b|n|s|items|props]; try discriminate; intros H;
    cbn [getProp truthy invalidPaths map];
    try (rewrite app_nil_r; reflexivity).
  cbn [declaredTableOk] in H.
  destruct (lookup (js "contract") props) as [| |b|n|s|items|ps];
    cbn [truthy negb map] in *;
    try discriminate; try (rewrite app_nil_r; reflexivity).
  - destruct b; [discriminate|]. now rewrite app_nil_r.
  - destruct (Z.eqb n 0); [|discriminate]. cbn [negb]. now rewrite app_nil_r.
  - destruct s as [|c path]; [cbn [map]; now rewrite app_nil_r|].
    destruct (startsWith (js "@teric/contracts/") (c :: path)); cbn [negb map];
      now rewrite ?app_nil_r.
Qed.

Lemma checkDeclaredTable_throws (table : JsValue) (ws : list Finding) :
  declaredTableOk table = false ->
  exists e, checkDeclaredTable table ws = Throw e.
Proof.
  unfold checkDeclaredTable, bind.
  destruct table as [| |b|n|s|items|props]; try discriminate; intros H;
    cbn [getProp]; try (eexists; reflexivity).
  cbn [declaredTableOk] in H.
  destruct (lookup (js "contract") props) as [| |b|n|s|items|ps];
    cbn [truthy negb] in *; try discriminate; try (eexists; reflexivity).
  - destruct b; [eexists; reflexivity|discriminate].
  - destruct (Z.eqb n 0); [discriminate|eexists; reflexivity].
Qed.

Lemma invalidPaths_cons (table : JsValue) (rest : list JsValue) :
  invalidPaths (table :: rest) = invalidPaths [table] ++ invalidPaths rest.
Proof.
  cbn [invalidPaths]. destruct table as [| |b|n|s|items|props]; try reflexivity.
  destruct (lookup (js "contract") props) as [| |b|n|s|items|ps]; try reflexivity.
  destruct s as [|c path]; [reflexivity|].
  now destruct (startsWith (js "@teric/contracts/") (c :: path)).
Qed.

Lemma checkDeclaredTables_exact (tables : list JsValue) (ws : list Finding) :
  (forallb declaredTableOk tables = true ->
   checkDeclaredTables tables ws
   = Ok (ws ++ map invalidContractPath (invalidPaths tables)))
  /\ (forallb declaredTableOk tables = false ->
      exists e, checkDeclaredTables tables ws = Throw e).
Proof.
  revert ws. induction tables as [|t tables IH]; intros ws.
  - split; [intros _; cbn; now rewrite app_nil_r|discriminate].
  - cbn [forallb checkDeclaredTables]. unfold bind.
    destruct (declaredTableOk t) eqn:Ht; cbn [andb].
    + rewrite (checkDeclaredTable_ok t ws Ht).
      destruct (IH (ws ++ map invalidContractPath (invalidPaths [t]))) as [Hok Hthrow].
      split; [|exact Hthrow].
      intros Hall. rewrite (Hok Hall), (invalidPaths_cons t tables), map_app.
      now rewrite app_assoc.
    + destruct (checkDeclaredTable_throws t ws Ht) as (e & He). rewrite He.
      split; [discriminate|]. intros _. now exists e.
Qed.

(** X10. The warnings about declared contracts. Without the contracts package
    there is one [package_not_installed] warning, whatever is declared.
    With it, and a list of tables under [dynamodb.tables]: if every entry
    is neither [undefined] nor [null] and has a [contract] that is a string
    or falsy, there is one [invalid_contract_path] warning for each
    non-empty contract string that does not start with [@teric/contracts/],
    in the order of the list; otherwise the check throws. *)
Theorem declared_contracts_warnings (w : World) (contracts dynamodb : JsValue)
    (tables : list JsValue) :
  (contractsResolvable w = false ->
   validateDeclaredContracts w contracts = Ok [packageNotInstalled])
  /\ (contractsResolvable w = true ->
      getProp contracts (js "dynamodb") = Ok dynamodb ->
      getPropOpt dynamodb (js "tables") = Ok (JArr tables) ->
      (forallb declaredTableOk tables = true ->
       validateDeclaredContracts w contracts
       = Ok (map invalidContractPath (invalidPaths tables)))
      /\ (forallb declaredTableOk tables = false ->
          exists e, validateDeclaredContracts w contracts = Throw e)).
Proof.
  unfold validateDeclaredContracts, bind. split.
  - intros ->. reflexivity.
  - intros -> -> ->. cbn [negb truthy iterate].
    exact (checkDeclaredTables_exact tables []).
Qed.

Lemma declared_contracts_warnings_witness :
  validateDeclaredContracts
    (declaringWorld (JArr [declaredTable (js "@teric-io/contracts/dynamodb/work-items");
                           declaredTable (js "@teric/contracts/dynamodb/initiatives")]))
    (JObj [(js "dynamodb",
            JObj [(js "tables",
                   JArr [declaredTable (js "@teric-io/contracts/dynamodb/work-items");
                         declaredTable (js "@teric/contracts/dynamodb/initiatives")])])])
  = Ok [invalidContractPath (js "@teric-io/contracts/dynamodb/work-items")]
  /\ exists e,
      validateDeclaredContracts (declaringWorld (JArr [JNull]))
        (JObj [(js "dynamodb", JObj [(js "tables", JArr [JNull])])]) = Throw e.
Proof.
  split.
  - pose proof (declared_contracts_warnings
                  (declaringWorld (JArr [declaredTable (js "@teric-io/contracts/dynamodb/work-items");
                                         declaredTable (js "@teric/contracts/dynamodb/initiatives")]))
                  (JObj [(js "dynamodb",
                          JObj [(js "tables",
                                 JArr [declaredTable (js "@teric-io/contracts/dynamodb/work-items");
                                       declaredTable (js "@teric/contracts/dynamodb/initiatives")])])])
                  (JObj [(js "tables",
                          JArr [declaredTable (js "@teric-io/contracts/dynamodb/work-items");
                                declaredTable (js "@teric/contracts/dynamodb/initiatives")])])
                  [declaredTable (js "@teric-io/contracts/dynamodb/work-items");
                   declaredTable (js "@teric/contracts/dynamodb/initiatives")])
      as [_ H].
    destruct (H eq_refl eq_refl eq_refl) as [Hok _]. exact (Hok eq_refl).
  - pose proof (declared_contracts_warnings (declaringWorld (JArr [JNull]))
                  (JObj [(js "dynamodb", JObj [(js "tables", JArr [JNull])])])
                  (JObj [(js "tables", JArr [JNull])]) [JNull]) as [_ H].
    destruct (H eq_refl eq_refl eq_refl) as [_ Hthrow]. exact (Hthrow eq_refl).
Defined.

(* ================================================================= *)
(** ** The run as a whole *)

Lemma collectSourceDirs_concat (w : World) (dirs : list jsstr)
    (acc files : list jsstr) :
  collectSourceDirs w dirs acc = Ok files ->
  exists perDir,
    Forall2 (fun dir found => getSourceFiles w dir = Ok found) dirs perDir
    /\ files = acc ++ List.concat perDir.
Proof.
  revert acc. induction dirs as [|dir dirs IH]; intros acc H.
  - cbn in H. injection H as <-. exists []. split; [constructor|].
    cbn. now rewrite app_nil_r.
  - cbn [collectSourceDirs] in H. unfold bind in H.
    destruct (getSourceFiles w dir) as [found|e] eqn:Hf; [|discriminate].
    destruct (IH _ H) as (perDir & Hall & ->).
    exists (found :: perDir). split; [now constructor|].
    cbn [List.concat]. now rewrite app_assoc.
Qed.

(** X11. The report of a run that scans: its violations are those of the
    enumerated files, in the order of the enumeration ([src], [lib],
    [handlers], [services], [components], then the files of the root);
    its warnings are those about the declared contracts followed by those
    of the files in the same order; [filesScanned] is the number of
    enumerated files. *)
Theorem report_composition (w : World) (configFile : jsstr) (advisoryMode : bool)
    (err : JsValue) (r : Report) :
  getProp (parseContractsFile w configFile) (js "error") = Ok err ->
  truthy err = false ->
  In r (stdout (validate w configFile advisoryMode)) ->
  exists declared perDir fromRoot,
    validateDeclaredContracts w (parseContractsFile w configFile) = Ok declared
    /\ Forall2 (fun dir found => getSourceFiles w dir = Ok found) srcDirs perDir
    /\ rootFiles w = Ok fromRoot
    /\ violations r
       = flat_map (fun f => fst (scanFile w f)) (List.concat perDir ++ fromRoot)
    /\ warnings r
       = declared ++ flat_map (fun f => snd (scanFile w f)) (List.concat perDir ++ fromRoot)
    /\ Summary.filesScanned (summary r) = List.length (List.concat perDir ++ fromRoot).
Proof.
  intros Herr Ht Hin. unfold validate in Hin. rewrite Herr, Ht in Hin.
  destruct (buildReport w advisoryMode (initialReport w configFile advisoryMode)
              (parseContractsFile w configFile)) as [r'|e] eqn:Hb;
    [|contradiction].
  assert (r' = r).
  { destruct (negb advisoryMode && Nat.ltb 0 (List.length (violations r')));
      cbn [stdout In] in Hin; tauto. }
  subst r'. clear Hin. unfold buildReport, bind in Hb.
  destruct (validateDeclaredContracts w _) as [declared|e]; [|discriminate].
  destruct (collectSourceDirs w srcDirs []) as [fromDirs|e] eqn:Hc; [|discriminate].
  destruct (rootFiles w) as [fromRoot|e]; [|discriminate].
  destruct (collectSourceDirs_concat w srcDirs [] fromDirs Hc) as (perDir & Hall & ->).
  cbn [app] in Hb. rewrite scanEach_flat_map in Hb. cbn [fst snd initialReport
    violations warnings app] in Hb. injection Hb as <-.
  exists declared, perDir, fromRoot. cbn. repeat split; try reflexivity; assumption.
Qed.

Lemma report_composition_witness :
  exists r perDir fromRoot,
    In r (stdout (validate fixtureWorld configName false))
    /\ violations r
       = flat_map (fun f => fst (scanFile fixtureWorld f)) (List.concat perDir ++ fromRoot)
    /\ Summary.filesScanned (summary r) = List.length (List.concat perDir ++ fromRoot).
Proof.
  assert (Hin : In (hd (initialReport fixtureWorld configName false)
                      (stdout (validate fixtureWorld configName false)))
                  (stdout (validate fixtureWorld configName false)))
    by (vm_compute; left; reflexivity).
  destruct (report_composition fixtureWorld configName false JUndefined _
              eq_refl eq_refl Hin)
    as (declared & perDir & fromRoot & _ & _ & _ & Hv & _ & Hn).
  eexists _, perDir, fromRoot. split; [exact Hin|]. split; assumption.
Defined.

(** X12. A run either prints exactly one report and ends with status 0 or 1
    without an exception, or throws before printing anything and ends with
    status 1. *)
Theorem one_report_or_exception (w : World) (configFile : jsstr)
    (advisoryMode : bool) :
  (exists r,
      stdout (validate w configFile advisoryMode) = [r]
      /\ uncaught (validate w configFile advisoryMode) = None
      /\ (exitCode (validate w configFile advisoryMode) = 0%Z
          \/ exitCode (validate w configFile advisoryMode) = 1%Z))
  \/ (exists e,
      stdout (validate w configFile advisoryMode) = []
      /\ uncaught (validate w configFile advisoryMode) = Some e
      /\ exitCode (validate w configFile advisoryMode) = 1%Z).
Proof.
  destruct (validate_cases w configFile advisoryMode)
    as [(e & Hv)|[(err & _ & _ & Hv)|(r & _ & Hv)]]; rewrite Hv;
    cbn [stdout uncaught exitCode].
  - right. exists e. repeat split.
  - left. eexists. split; [reflexivity|]. split; [reflexivity|]. now left.
  - left. exists r. split; [reflexivity|]. split; [reflexivity|].
    destruct (negb advisoryMode && Nat.ltb 0 (List.length (violations r)));
      [now right|now left].
Qed.



Lemma exit_status_of_reported_run_witness :
  exists r,
    In r (stdout (validate fixtureWorld configName true))
    /\ violations r <> []
    /\ exitCode (validate fixtureWorld configName true) = 0%Z.
Proof.
  assert (Hin : In (hd (initialReport fixtureWorld configName true)
                      (stdout (validate fixtureWorld configName true)))
                  (stdout (validate fixtureWorld configName true)))
    by (vm_compute; left; reflexivity).
  destruct (exit_status_of_reported_run fixtureWorld configName true _ Hin)
    as [_ Hzero].
  eexists. split; [exact Hin|]. split; [vm_compute; discriminate|].
  apply Hzero. exact (or_introl eq_refl).
Defined.

Lemma summary_counts_after_scan_witness :
  exists r,
    buildReport fixtureWorld false (initialReport fixtureWorld configName false)
      (parseContractsFile fixtureWorld configName) = Ok r
    /\ Summary.errors (summary r) = List.length (violations r)
    /\ Summary.warnings (summary r) = List.length (warnings r)
    /\ Summary.total (summary r) = 2.
Proof.
  assert (H : exists r,
             buildReport fixtureWorld false (initialReport fixtureWorld configName false)
               (parseContractsFile fixtureWorld configName) = Ok r
             /\ Summary.total (summary r) = 2).
  { eexists. split; [vm_compute; reflexivity|reflexivity]. }
  destruct H as (r & Hb & Ht).
  destruct (summary_counts_after_scan fixtureWorld configName false r Hb)
    as (He & Hw & _).
  exists r. repeat split; assumption.
Defined.

Lemma nullish_config_throws_witness :
  stdout (validate emptyConfigWorld configName false) = []
  /\ uncaught (validate emptyConfigWorld configName false) <> None
  /\ exitCode (validate emptyConfigWorld configName false) = 1%Z.
Proof.
  apply (nullish_config_throws emptyConfigWorld configName [] false JUndefined);
    reflexivity.
Defined.

Lemma contract_and_dot_test_paths_suppressed_witness :
  scanLine (js "packages/contracts/tables.ts") tableLine 0 ([], []) = ([], []).
Proof.
  apply contract_and_dot_test_paths_suppressed. reflexivity.
Defined.

(* ================================================================= *)
(** ** Severities in the report *)

Lemma scanFile_severities (w : World) (filePath : jsstr) :
  Forall (fun f => severity f = sev_error
                   /\ (type f = hardcoded_table_name \/ type f = hardcoded_lambda_name))
    (fst (scanFile w filePath))
  /\ Forall (fun f => severity f = sev_warning) (snd (scanFile w filePath)).
Proof.
  destruct (readFileSync w filePath) as [content|e] eqn:Hread.
  - split; apply Forall_forall; intros f Hin;
      destruct (scanFile_kinds w filePath content f Hread) as [Hv Hw].
    + exact (Hv Hin).
    + exact (proj1 (Hw Hin)).
  - unfold scanFile. rewrite Hread. cbn [fst snd]. split; repeat constructor.
Qed.

Lemma checkDeclaredTables_severity (tables : list JsValue) (ws ws' : list Finding) :
  Forall (fun f => severity f = sev_warning) ws ->
  checkDeclaredTables tables ws = Ok ws' ->
  Forall (fun f => severity f = sev_warning) ws'.
Proof.
  revert ws. induction tables as [|t tables IH]; intros ws Hws H.
  - cbn in H. now injection H as <-.
  - cbn [checkDeclaredTables] in H. unfold bind in H.
    destruct (checkDeclaredTable t ws) as [ws1|e] eqn:Ht; [|discriminate].
    apply (IH ws1); [|assumption].
    unfold checkDeclaredTable, bind in Ht.
    destruct (getProp t (js "contract")) as [c|e]; [|discriminate].
    destruct (truthy c); [|now injection Ht as <-].
    destruct c; try discriminate.
    destruct (negb (startsWith (js "@teric/contracts/") s));
      injection Ht as <-; [|assumption].
    apply Forall_app. split; [assumption|]. repeat constructor.
Qed.

Lemma validateDeclaredContracts_severity (w : World) (contracts : JsValue)
    (ws : list Finding) :
  validateDeclaredContracts w contracts = Ok ws ->
  Forall (fun f => severity f = sev_warning) ws.
Proof.
  unfold validateDeclaredContracts, bind.
  destruct (negb (contractsResolvable w)).
  - intros H. injection H as <-. repeat constructor.
  - destruct (getProp contracts (js "dynamodb")) as [d|e]; [|discriminate].
    destruct (getPropOpt d (js "tables")) as [t|e]; [|discriminate].
    destruct (truthy t); [|intros H; injection H as <-; constructor].
    destruct (iterate t) as [items|e]; [|discriminate].
    apply checkDeclaredTables_severity. constructor.
Qed.

Lemma Forall_flat_map {A B : Type} (P : B -> Prop) (g : A -> list B) (l : list A) :
  (forall a, Forall P (g a)) -> Forall P (flat_map g l).
Proof.
  intros H. induction l as [|a l IH]; [constructor|].
  cbn [flat_map]. apply Forall_app. split; [apply H|exact IH].
Qed.

(** X14. In every printed report the violations are error-severity findings of
    a hardcoded table or function name, and every warning has severity
    warning. *)
Theorem report_severities (w : World) (configFile : jsstr) (advisoryMode : bool)
    (r : Report) :
  In r (stdout (validate w configFile advisoryMode)) ->
  Forall (fun f => severity f = sev_error
                   /\ (type f = hardcoded_table_name \/ type f = hardcoded_lambda_name))
    (violations r)
  /\ Forall (fun f => severity f = sev_warning) (warnings r).
Proof.
  intros Hin.
  destruct (validate_cases w configFile advisoryMode)
    as [(e & Hv)|[(err & _ & _ & Hv)|(r' & Hb & Hv)]];
    rewrite Hv in Hin; cbn [stdout In] in Hin.
  - contradiction.
  - destruct Hin as [<-|[]]. cbn [violations warnings]. split; repeat constructor.
  - destruct Hin as [<-|[]]. unfold buildReport, bind in Hb.
    destruct (validateDeclaredContracts w _) as [declared|e] eqn:Hd; [|discriminate].
    destruct (collectSourceDirs w srcDirs []) as [fromDirs|e]; [|discriminate].
    destruct (rootFiles w) as [fromRoot|e]; [|discriminate].
    rewrite scanEach_flat_map in Hb. cbn [fst snd initialReport violations
      warnings app] in Hb. injection Hb as <-. cbn [violations warnings]. split.
    + apply Forall_flat_map. intros f. exact (proj1 (scanFile_severities w f)).
    + apply Forall_app. split.
      * exact (validateDeclaredContracts_severity w _ declared Hd).
      * apply Forall_flat_map. intros f. exact (proj2 (scanFile_severities w f)).
Qed.

Lemma report_severities_witness :
  exists r,
    In r (stdout (validate fixtureWorld configName false))
    /\ map severity (violations r) = [sev_error]
    /\ Forall (fun f => severity f = sev_warning) (warnings r).
Proof.
  assert (Hin : In (hd (initialReport fixtureWorld configName false)
                      (stdout (validate fixtureWorld configName false)))
                  (stdout (validate fixtureWorld configName false)))
    by (vm_compute; left; reflexivity).
  destruct (report_severities fixtureWorld configName false _ Hin) as [_ Hw].
  eexists. split; [exact Hin|]. split; [reflexivity|exact Hw].
Defined.

(* ================================================================= *)
(** ** One finding for each name on a line *)

Lemma eqb_refl (a : jsstr) : eqb a a = true.
Proof.
  induction a as [|x a IH]; [reflexivity|].
  cbn [eqb]. now rewrite N.eqb_refl, IH.
Qed.

Lemma distinct_NoDup (l : list jsstr) : distinct l = true -> NoDup l.
Proof.
  induction l as [|x l IH]; intros H; [constructor|].
  cbn [distinct] in H. apply andb_true_iff in H as [Hx H].
  constructor; [|exact (IH H)].
  intros Hin. apply negb_true_iff in Hx.
  assert (existsb (eqb x) l = true).
  { apply existsb_exists. exists x. split; [assumption|apply eqb_refl]. }
  congruence.
Qed.

Lemma incl_map_filter {A B : Type} (f1 f2 : A -> B) (g1 g2 : A -> bool)
    (l1 l2 : list A) :
  incl (map f1 (filter g1 l1) ++ map f2 (filter g2 l2)) (map f1 l1 ++ map f2 l2).
Proof.
  intros b Hb. apply in_app_or in Hb as [Hb|Hb]; apply in_or_app; [left|right];
    apply in_map_iff in Hb as (a & <- & Ha); apply filter_In in Ha as [Ha _];
    now apply in_map.
Qed.

Lemma NoDup_map_filter {A B : Type} (f1 f2 : A -> B) (g1 g2 : A -> bool)
    (l1 l2 : list A) :
  NoDup (map f1 l1 ++ map f2 l2) ->
  NoDup (map f1 (filter g1 l1) ++ map f2 (filter g2 l2)).
Proof.
  induction l1 as [|a l1 IH]; intros H.
  - cbn [filter map app] in *. induction l2 as [|a l2 IH2]; [constructor|].
    cbn [map filter] in *. inversion H as [|x l Hx Hl]; subst.
    destruct (g2 a); [|exact (IH2 Hl)].
    cbn [map]. constructor; [|exact (IH2 Hl)].
    intros Hin. apply Hx. apply in_map_iff in Hin as (y & <- & Hy).
    apply filter_In in Hy as [Hy _]. now apply in_map.
  - cbn [map filter app] in *. inversion H as [|x l Hx Hl]; subst.
    destruct (g1 a); [|exact (IH Hl)].
    cbn [map app]. constructor; [|exact (IH Hl)].
    intros Hin. apply Hx. exact (incl_map_filter f1 f2 g1 g2 l1 l2 _ Hin).
Qed.

Lemma filter_all_false {A : Type} (l : list A) : filter (fun _ => false) l = [].
Proof. induction l; [reflexivity|assumption]. Qed.

Lemma registry_messages_distinct :
  distinct
    (map (fun t => js "Hardcoded table name '" ++ t ++ js "' should use @teric/contracts")
       KNOWN_TABLE_PATTERNS
     ++ map (fun t => js "Hardcoded Lambda name '" ++ t ++ js "' should use @teric/contracts")
          KNOWN_LAMBDA_PATTERNS) = true
  /\ distinct
       (map (fun t => js "EventBridge source '" ++ t ++ js "' should use @teric/contracts")
          KNOWN_EVENT_SOURCES) = true.
Proof. vm_compute. split; reflexivity. Qed.

Lemma NoDup_map_JStr (l : list jsstr) : NoDup l -> NoDup (map JStr l).
Proof.
  induction 1 as [|x l Hx Hl IH]; [constructor|].
  cbn [map]. constructor; [|assumption].
  intros Hin. apply in_map_iff in Hin as (y & Hy & Hin).
  injection Hy as ->. contradiction.
Qed.

(** X7. However often names occur on it, a line adds at most one finding for
    each entry of the registries: the messages of the violations it adds are
    pairwise different, as are those of its warnings, and there are at most
    20 violations and 5 warnings. *)
Theorem one_finding_per_name (filePath line : jsstr) (index : nat) :
  NoDup (map message (fst (scanLine filePath line index ([], []))))
  /\ List.length (fst (scanLine filePath line index ([], []))) <= 20
  /\ NoDup (map message (snd (scanLine filePath line index ([], []))))
  /\ List.length (snd (scanLine filePath line index ([], []))) <= 5.
Proof.
  rewrite scanLine_lineFindings. cbn [fst snd app].
  destruct registry_messages_distinct as [Hv Hw].
  apply distinct_NoDup, NoDup_map_JStr in Hv.
  apply distinct_NoDup, NoDup_map_JStr in Hw.
  rewrite map_app, !map_map in Hv. rewrite map_map in Hw.
  set (tg := fun t => regexTest (tablePattern t) (js "gi") line).
  set (lg := fun t => regexTest (invokePattern t) (js "i") line).
  set (sg := fun t => regexTest (sourcePattern t) (js "i") line).
  assert (Hfst : exists g1 g2,
             fst (lineFindings filePath line index)
             = map (tableViolation filePath line (index + 1)) (filter g1 KNOWN_TABLE_PATTERNS)
               ++ map (lambdaViolation filePath line (index + 1))
                    (filter g2 KNOWN_LAMBDA_PATTERNS)).
  { unfold lineFindings, tableHits, lambdaHits. fold tg lg.
    destruct (isComment line).
    - exists (fun _ => false), (fun _ => false). now rewrite !filter_all_false.
    - cbn [fst].
      destruct (contractOrTestPath filePath), (contractOrDotTestPath filePath).
      + exists (fun _ => false), (fun _ => false). now rewrite !filter_all_false.
      + exists (fun _ => false), lg. now rewrite filter_all_false.
      + exists tg, (fun _ => false). now rewrite filter_all_false.
      + now exists tg, lg. }
  assert (Hsnd : exists g,
             snd (lineFindings filePath line index)
             = map (sourceWarning filePath line (index + 1)) (filter g KNOWN_EVENT_SOURCES)).
  { unfold lineFindings, sourceHits. fold sg.
    destruct (isComment line); [|cbn [snd]; destruct (contractOrDotTestPath filePath)].
    - exists (fun _ => false). now rewrite filter_all_false.
    - exists (fun _ => false). now rewrite filter_all_false.
    - now exists sg. }
  destruct Hfst as (g1 & g2 & ->). destruct Hsnd as (g & ->).
  rewrite map_app, !map_map, !length_app, !length_map. cbn [message tableViolation
    lambdaViolation sourceWarning].
  split; [exact (NoDup_map_filter _ _ g1 g2 _ _ Hv)|].
  split.
  { pose proof (filter_length_le g1 KNOWN_TABLE_PATTERNS) as H1.
    pose proof (filter_length_le g2 KNOWN_LAMBDA_PATTERNS) as H2.
    change (List.length KNOWN_TABLE_PATTERNS) with 12 in H1.
    change (List.length KNOWN_LAMBDA_PATTERNS) with 8 in H2. lia. }
  split.
  { pose proof (NoDup_map_filter
                  (fun t => JStr (js "EventBridge source '" ++ t
                                  ++ js "' should use @teric/contracts"))
                  (fun t => JStr t) g (fun _ => false) KNOWN_EVENT_SOURCES []) as H.
    cbn [map filter] in H. rewrite !app_nil_r in H. exact (H Hw). }
  pose proof (filter_length_le g KNOWN_EVENT_SOURCES) as H3.
  change (List.length KNOWN_EVENT_SOURCES) with 5 in H3. lia.
Qed.

(* ================================================================= *)
(** ** Reading a file for the prompt *)

Lemma split_lines_nonempty (s : jsstr) : split_lines s <> [].
Proof.
  destruct s as [|c s]; cbn [split_lines]; [discriminate|].
  destruct (N.eqb c newline); [discriminate|].
  destruct (split_lines s); discriminate.
Qed.

(** Joining the lines of a text gives the text back. *)
Lemma joinLines_split_lines (s : jsstr) : joinLines (split_lines s) = s.
Proof.
  induction s as [|c s IH]; [reflexivity|].
  cbn [split_lines]. pose proof (split_lines_nonempty s) as Hne.
  destruct (N.eqb_spec c newline) as [->|Hc].
  - destruct (split_lines s) as [|l ls]; [congruence|].
    cbn [joinLines app] in *. now rewrite IH.
  - destruct (split_lines s) as [|l ls]; [congruence|].
    cbn [joinLines] in *. destruct ls; cbn [app]; now rewrite <- IH.
Qed.

(** The first lines of a text, joined, are a beginning of the text. *)
Lemma joinLines_firstn_prefix (n : nat) (lines : list jsstr) :
  exists rest, joinLines lines = joinLines (firstn (S n) lines) ++ rest.
Proof.
  revert n. induction lines as [|l lines IH]; intros n.
  - now exists [].
  - cbn [firstn]. destruct lines as [|l' lines].
    + rewrite firstn_nil. exists []. now rewrite app_nil_r.
    + destruct n as [|n].
      * cbn [firstn joinLines]. eexists. reflexivity.
      * destruct (IH n) as (rest & Hrest).
        exists rest. change (firstn (S n) (l' :: lines)) with (l' :: firstn n lines) in *.
        cbn [joinLines] in *. rewrite Hrest, <- app_assoc. reflexivity.
Qed.

Lemma lineCapped_prefix (maxLines : option nat) (content : jsstr) :
  exists rest, content = lineCapped maxLines content ++ rest.
Proof.
  destruct maxLines as [[|n]|]; cbn [lineCapped]; try (exists []; now rewrite app_nil_r).
  destruct (joinLines_firstn_prefix n (split_lines content)) as (rest & H).
  exists rest. now rewrite <- H, joinLines_split_lines.
Qed.

Lemma lineCapped_short (n : nat) (content : jsstr) :
  List.length (split_lines content) <= n ->
  lineCapped (Some n) content = content.
Proof.
  intros H. destruct n as [|n]; [reflexivity|]. cbn [lineCapped].
  now rewrite firstn_all2, joinLines_split_lines.
Qed.

Section ReadFileIfExists.

Variables (w : World) (resolve : jsstr -> jsstr).

(** X20. A file within both limits is returned as it is, without a warning:
    cutting after [n] lines a text of at most [n] lines, or cutting none,
    changes nothing. *)
Theorem readFileIfExists_small_file (filePath content : jsstr)
    (maxLines : option nat) :
  existsSync w (resolve filePath) = true ->
  readFileSync w (resolve filePath) = Ok content ->
  (forall n, maxLines = Some n -> n = 0 \/ List.length (split_lines content) <= n) ->
  List.length content <= 8000 ->
  readFileIfExists w resolve filePath maxLines = Ok (Some content, []).
Proof.
  intros Hex Hread Hlines Hlen. unfold readFileIfExists, bind.
  rewrite Hex, Hread. cbn [negb]. fold (lineCapped maxLines content).
  assert (Hcap : lineCapped maxLines content = content).
  { destruct maxLines as [n|]; [|reflexivity].
    destruct (Hlines n eq_refl) as [->|Hn]; [reflexivity|].
    now apply lineCapped_short. }
  rewrite Hcap. revert Hlen. generalize 8000. intros limit Hlen.
  destruct (Nat.ltb_spec limit (List.length content)); [lia|reflexivity].
Qed.

End ReadFileIfExists.

Lemma readFileIfExists_small_file_witness :
  readFileIfExists fixtureWorld (fun p => p) (js "src/handler.ts") (Some 80)
  = Ok (Some (js "const table = 'teric-agentic-work-items';"), []).
Proof.
  apply readFileIfExists_small_file; try reflexivity.
  - intros n H. injection H as <-. right. apply Nat.leb_le. reflexivity.
  - apply Nat.leb_le. reflexivity.
Defined.

Lemma collectSourceDirs_missing (w : World) (dirs acc : list jsstr) :
  (forall d, In d dirs -> existsSync w d = false) ->
  collectSourceDirs w dirs acc = Ok acc.
Proof.
  revert acc. induction dirs as [|d dirs IH]; intros acc H; [reflexivity|].
  cbn [collectSourceDirs]. unfold getSourceFiles, bind.
  rewrite (H d (or_introl eq_refl)). cbn [negb]. rewrite app_nil_r.
  apply IH. intros d' Hd'. apply H. now right.
Qed.

(** X18. With an accepted configuration, none of the source directories
    present and no source file in the root of the working directory, the run
    scans no file and passes, in blocking mode too: the report holds no
    violation, the warnings about the declared contracts only, and the exit
    status is 0. *)
Theorem no_source_files_passes (w : World) (configFile : jsstr)
    (advisoryMode : bool) (err : JsValue) (declared : list Finding) :
  getProp (parseContractsFile w configFile) (js "error") = Ok err ->
  truthy err = false ->
  validateDeclaredContracts w (parseContractsFile w configFile) = Ok declared ->
  (forall d, In d srcDirs -> existsSync w d = false) ->
  rootFiles w = Ok [] ->
  validate w configFile advisoryMode
  = {| stdout :=
         [{| passed := true;
             violations := [];
             warnings := declared;
             summary := {| Summary.total := List.length declared;
                           Summary.errors := 0;
                           Summary.warnings := List.length declared;
                           Summary.filesScanned := 0 |};
             metadata := {| Metadata.configFile := configFile;
                            Metadata.advisoryMode := advisoryMode;
                            Metadata.timestamp := now w;
                            Metadata.version := js "1.0.0" |} |}];
       exitCode := 0;
       uncaught := None |}.
Proof.
  intros Herr Ht Hd Hdirs Hroot. unfold validate. rewrite Herr, Ht.
  unfold buildReport, bind.
  rewrite Hd, (collectSourceDirs_missing w srcDirs [] Hdirs), Hroot.
  cbn. now rewrite andb_false_r.
Qed.

Lemma no_source_files_passes_witness :
  map (fun r => (passed r, violations r, map type (warnings r), summary r))
    (stdout (validate emptyConfigRootWorld configName false))
  = [(true, [], [package_not_installed],
      {| Summary.total := 1; Summary.errors := 0; Summary.warnings := 1;
         Summary.filesScanned := 0 |})].
Proof.
  rewrite (no_source_files_passes emptyConfigRootWorld configName false JUndefined
             [packageNotInstalled] eq_refl eq_refl eq_refl).
  - reflexivity.
  - intros d Hd. cbn in Hd.
    repeat (destruct Hd as [<-|Hd]; [reflexivity|]). contradiction.
  - reflexivity.
Defined.

(* ================================================================= *)
(** ** A line in its file *)

Lemma split_lines_splitOn (s : jsstr) : split_lines s = Path.splitOn newline s.
Proof.
  induction s as [|c s IH]; [reflexivity|].
  cbn [split_lines Path.splitOn]. now rewrite IH.
Qed.

Lemma lineFeeds_app (a b : jsstr) : lineFeeds (a ++ b) = lineFeeds a + lineFeeds b.
Proof. unfold lineFeeds. now rewrite filter_app, length_app. Qed.

Lemma lineFeeds_sepFree (l : jsstr) : lineFeeds l = 0 -> sepFree newline l = true.
Proof.
  unfold lineFeeds. induction l as [|c l IH]; [reflexivity|].
  cbn [filter sepFree forallb]. rewrite (N.eqb_sym c newline).
  destruct (N.eqb newline c); [discriminate|]. exact IH.
Qed.

(** A text has one line more than it has line feeds. *)
Lemma split_lines_length (s : jsstr) :
  List.length (split_lines s) = lineFeeds s + 1.
Proof.
  unfold lineFeeds. induction s as [|c s IH]; [reflexivity|].
  cbn [split_lines filter]. rewrite (N.eqb_sym newline c).
  destruct (N.eqb c newline).
  - cbn [List.length]. now rewrite IH.
  - pose proof (split_lines_nonempty s) as Hne.
    destruct (split_lines s) as [|l ls]; [congruence|exact IH].
Qed.

(** A line between the line feeds of a file is the line of the file that
    has as many lines before it as there are line feeds before it. *)
Lemma split_lines_position (prefix line suffix : jsstr) :
  startsLine prefix -> endsLine suffix -> lineFeeds line = 0 ->
  exists before after,
    split_lines (prefix ++ line ++ suffix) = before ++ line :: after
    /\ List.length before = lineFeeds prefix.
Proof.
  intros Hp Hs Hl. apply lineFeeds_sepFree in Hl.
  assert (Hrest : exists after, split_lines (line ++ suffix) = line :: after).
  { destruct Hs as [->|(s' & ->)].
    - exists []. now rewrite app_nil_r, split_lines_splitOn, (splitOn_sepFree _ _ Hl).
    - exists (split_lines s').
      now rewrite !split_lines_splitOn, splitOn_app, (splitOn_sepFree _ _ Hl). }
  destruct Hrest as (after & Hafter).
  destruct Hp as [->|(p & ->)].
  - exists [], after. split; [exact Hafter|reflexivity].
  - exists (split_lines p), after. split.
    + rewrite <- app_assoc. cbn [app].
      rewrite split_lines_splitOn, splitOn_app, <- !split_lines_splitOn.
      now rewrite Hafter.
    + rewrite split_lines_length, lineFeeds_app. reflexivity.
Qed.

Lemma linesFindings_app (filePath : jsstr) (before after : list jsstr) (index : nat) :
  linesFindings filePath (before ++ after) index =
  (fst (linesFindings filePath before index)
   ++ fst (linesFindings filePath after (index + List.length before)),
   snd (linesFindings filePath before index)
   ++ snd (linesFindings filePath after (index + List.length before))).
Proof.
  revert index. induction before as [|l before IH]; intros index.
  - cbn [app linesFindings List.length fst snd]. rewrite Nat.add_0_r.
    now destruct (linesFindings filePath after index).
  - cbn [app linesFindings List.length fst snd]. rewrite IH. cbn [fst snd].
    rewrite Nat.add_succ_r, <- !app_assoc. reflexivity.
Qed.

Lemma linesFindings_range (filePath : jsstr) (lines : list jsstr) (index : nat)
    (f : Finding) :
  In f (fst (linesFindings filePath lines index))
  \/ In f (snd (linesFindings filePath lines index)) ->
  exists m, Scanner.line f = Some m /\ index < m <= index + List.length lines.
Proof.
  intros H. destruct (linesFindings_In filePath lines index f H) as (k & l & Hk & Hl).
  destruct (lineFindings_fields filePath l (index + k) f Hl) as (_ & Hn & _).
  exists (index + k + 1). split; [exact Hn|].
  assert (k < List.length lines) by (apply nth_error_Some; congruence). lia.
Qed.

Lemma filter_all {A : Type} (g : A -> bool) (l : list A) :
  (forall a, In a l -> g a = true) -> filter g l = l.
Proof.
  induction l as [|a l IH]; intros H; [reflexivity|].
  cbn [filter]. rewrite (H a (or_introl eq_refl)), IH; [reflexivity|].
  intros b Hb. apply H. now right.
Qed.

Lemma onLine_other (filePath : jsstr) (lines : list jsstr) (index n : nat) :
  n <= index \/ index + List.length lines < n ->
  filter (onLine n) (fst (linesFindings filePath lines index)) = []
  /\ filter (onLine n) (snd (linesFindings filePath lines index)) = [].
Proof.
  intros Hn. split; apply filter_none; intros f Hf.
  - destruct (linesFindings_range filePath lines index f (or_introl Hf))
      as (m & Hm & Hr).
    unfold onLine. rewrite Hm. apply Nat.eqb_neq. lia.
  - destruct (linesFindings_range filePath lines index f (or_intror Hf))
      as (m & Hm & Hr).
    unfold onLine. rewrite Hm. apply Nat.eqb_neq. lia.
Qed.

Lemma onLine_same (filePath line : jsstr) (index : nat) :
  filter (onLine (index + 1)) (fst (lineFindings filePath line index))
  = fst (lineFindings filePath line index)
  /\ filter (onLine (index + 1)) (snd (lineFindings filePath line index))
     = snd (lineFindings filePath line index).
Proof.
  split; apply filter_all; intros f Hf.
  - destruct (lineFindings_fields filePath line index f (or_introl Hf)) as (_ & Hn & _).
    unfold onLine. rewrite Hn. apply Nat.eqb_refl.
  - destruct (lineFindings_fields filePath line index f (or_intror Hf)) as (_ & Hn & _).
    unfold onLine. rewrite Hn. apply Nat.eqb_refl.
Qed.

(** The findings of a file that carry the number of one of its lines are
    the findings of that line. *)
Lemma scanFile_on_line (w : World) (filePath prefix line suffix : jsstr) :
  readFileSync w filePath = Ok (prefix ++ line ++ suffix) ->
  startsLine prefix -> endsLine suffix -> lineFeeds line = 0 ->
  filter (onLine (lineFeeds prefix + 1)) (fst (scanFile w filePath))
  = fst (lineFindings filePath line (lineFeeds prefix))
  /\ filter (onLine (lineFeeds prefix + 1)) (snd (scanFile w filePath))
     = snd (lineFindings filePath line (lineFeeds prefix)).
Proof.
  intros Hread Hp Hs Hl.
  rewrite (scanFile_linesFindings w filePath _ Hread).
  destruct (split_lines_position prefix line suffix Hp Hs Hl)
    as (before & after & -> & <-).
  rewrite linesFindings_app. cbn [fst snd Nat.add linesFindings].
  rewrite !filter_app.
  destruct (onLine_other filePath before 0 (List.length before + 1)) as [Hb1 Hb2];
    [right; lia|].
  destruct (onLine_other filePath after (S (List.length before))
              (List.length before + 1)) as [Ha1 Ha2]; [left; lia|].
  destruct (onLine_same filePath line (List.length before)) as [Hl1 Hl2].
  rewrite Hb1, Hb2, Ha1, Ha2, Hl1, Hl2. cbn [app]. now rewrite !app_nil_r.
Qed.

Lemma emptyLine_hits :
  isComment [] = false
  /\ tableHits [] = [] /\ lambdaHits [] = [] /\ sourceHits [] = [].
Proof. vm_compute. repeat split; reflexivity. Qed.

Lemma longTableLine_hits :
  isComment longTableLine = false
  /\ tableHits longTableLine = [js "teric-agentic-work-items"]
  /\ lambdaHits longTableLine = [] /\ sourceHits longTableLine = [].
Proof. vm_compute. repeat split; reflexivity. Qed.

(** C6. Table-name matching tolerates omitted hyphens and does not match a
    quoted extension of a known name: (1) every known table name, with any
    subset of its hyphens left out, between any two of the three quote
    characters and in any context, matches its pattern; (2) a known table
    name followed by at least one more character, between two quotes and in
    a context free of quotes, matches the pattern of no known table name;
    (3) the line [const tableName = 'teric-agentic-work-items';] in a file
    that is neither a test nor under a contracts directory adds exactly one
    finding, a [hardcoded_table_name] violation with the 1-based line number
    and the line as snippet; (4) every violation found on a line carries the
    1-based number of the line and the first 100 characters of the trimmed
    line; (5) wherever that line stands in such a file, the findings of the
    file that carry its number, one more than the number of line feeds
    before it, are that one violation and no warning; (6) for any line of a
    file, the violations that carry its number quote the first 100
    characters of the line without the white space around it; (7) a file
    with an indented line of 130 characters on its fifth line gives one
    violation, with line number 5 and the 100 characters that follow the
    indentation as snippet. *)
Theorem table_name_matching :
  (forall t v q1 q2 pre post,
      In t KNOWN_TABLE_PATTERNS -> In v (hyphenVariants t) ->
      isQuote q1 = true -> isQuote q2 = true ->
      regexTest (tablePattern t) (js "gi") (pre ++ q1 :: v ++ q2 :: post) = true)
  /\ (forall t t' q1 q2 pre ext post,
      In t KNOWN_TABLE_PATTERNS -> In t' KNOWN_TABLE_PATTERNS ->
      isQuote q1 = true -> isQuote q2 = true ->
      ext <> [] -> noQuote ext = true -> noQuote pre = true -> noQuote post = true ->
      regexTest (tablePattern t') (js "gi") (pre ++ q1 :: t ++ ext ++ q2 :: post) = false)
  /\ (forall filePath index st,
      contractOrTestPath filePath = false ->
      scanLine filePath tableLine index st =
      (fst st ++
       [{| type := hardcoded_table_name;
           severity := sev_error;
           file := Some filePath;
           line := Some (index + 1);
           message := JStr (js "Hardcoded table name 'teric-agentic-work-items' should use @teric/contracts");
           contract := Some (js "@teric/contracts/dynamodb/work-items");
           snippet := Some (js "const tableName = 'teric-agentic-work-items';");
           expected := None |}],
       snd st))
  /\ (forall filePath line index st f,
      In f (fst (scanLine filePath line index st)) ->
      In f (fst st)
      \/ (Scanner.line f = Some (index + 1)
          /\ snippet f = Some (substring0 100 (trim line))))
  /\ (forall w filePath prefix suffix,
      readFileSync w filePath = Ok (prefix ++ tableLine ++ suffix) ->
      startsLine prefix -> endsLine suffix ->
      contractOrTestPath filePath = false ->
      filter (onLine (lineFeeds prefix + 1)) (fst (scanFile w filePath))
      = [{| type := hardcoded_table_name;
            severity := sev_error;
            file := Some filePath;
            line := Some (lineFeeds prefix + 1);
            message := JStr (js "Hardcoded table name 'teric-agentic-work-items' should use @teric/contracts");
            contract := Some (js "@teric/contracts/dynamodb/work-items");
            snippet := Some (js "const tableName = 'teric-agentic-work-items';");
            expected := None |}]
      /\ filter (onLine (lineFeeds prefix + 1)) (snd (scanFile w filePath)) = [])
  /\ (forall w filePath prefix line suffix f,
      readFileSync w filePath = Ok (prefix ++ line ++ suffix) ->
      startsLine prefix -> endsLine suffix -> lineFeeds line = 0 ->
      In f (fst (scanFile w filePath)) ->
      Scanner.line f = Some (lineFeeds prefix + 1) ->
      snippet f = Some (firstn 100 (trim line)))
  /\ (forall w filePath,
      readFileSync w filePath = Ok fifthLineFile ->
      contractOrTestPath filePath = false ->
      scanFile w filePath
      = ([{| type := hardcoded_table_name;
             severity := sev_error;
             file := Some filePath;
             line := Some 5;
             message := JStr (js "Hardcoded table name 'teric-agentic-work-items' should use @teric/contracts");
             contract := Some (js "@teric/contracts/dynamodb/work-items");
             snippet := Some (js "const workItems = process.env.WORK_ITEMS_TABLE || 'teric-agentic-work-items'; // falls back to the s");
             expected := None |}],
         [])).
Proof.
  split; [|split; [|split; [|split; [|split; [|split]]]]].
  - intros t v q1 q2 pre post Ht Hv Hq1 Hq2.
    apply variantCheck_sound; try assumption.
    pose proof variantCheck_registry as H.
    rewrite forallb_forall in H. now apply H.
  - intros t t' q1 q2 pre ext post Ht Ht' Hq1 Hq2 Hne Hext Hpre Hpost.
    apply extensionCheck_sound; try assumption.
    pose proof extensionCheck_registry as H.
    rewrite forallb_forall in H. specialize (H t Ht).
    rewrite forallb_forall in H. now apply H.
  - intros filePath index st Hp.
    rewrite scanLine_lineFindings,
      (lineFindings_by_hits filePath tableLine index _ _ _ tableLine_hits Hp).
    cbn [fst snd map app]. now rewrite app_nil_r.
  - intros filePath line index st f Hin.
    rewrite scanLine_lineFindings in Hin. cbn [fst] in Hin.
    apply in_app_or in Hin as [Hin|Hin]; [now left|right].
    unfold lineFindings in Hin. destruct (isComment line); [contradiction|].
    cbn [fst] in Hin. apply in_app_or in Hin as [Hin|Hin].
    + destruct (contractOrTestPath filePath); [contradiction|].
      apply in_map_iff in Hin as (t & <- & _). split; reflexivity.
    + destruct (contractOrDotTestPath filePath); [contradiction|].
      apply in_map_iff in Hin as (t & <- & _). split; reflexivity.
  - intros w filePath prefix suffix Hread Hpre Hsuf Hp.
    destruct (scanFile_on_line w filePath prefix tableLine suffix Hread Hpre Hsuf
                eq_refl) as [Hv Hw].
    rewrite Hv, Hw,
      (lineFindings_by_hits filePath tableLine _ _ _ _ tableLine_hits Hp).
    cbn [fst snd map app]. split; reflexivity.
  - intros w filePath prefix line suffix f Hread Hpre Hsuf Hl Hin Hn.
    destruct (scanFile_on_line w filePath prefix line suffix Hread Hpre Hsuf Hl)
      as [Hv _].
    assert (Hf : In f (filter (onLine (lineFeeds prefix + 1)) (fst (scanFile w filePath)))).
    { apply filter_In. split; [assumption|].
      unfold onLine. rewrite Hn. apply Nat.eqb_refl. }
    rewrite Hv in Hf.
    destruct (lineFindings_fields filePath line (lineFeeds prefix) f (or_introl Hf))
      as (_ & _ & Hs).
    exact Hs.
  - intros w filePath Hread Hp.
    rewrite (scanFile_linesFindings w filePath _ Hread).
    change (split_lines fifthLineFile) with [[]; []; []; []; longTableLine].
    cbn [linesFindings].
    rewrite (lineFindings_by_hits filePath [] 0 _ _ _ emptyLine_hits Hp),
      (lineFindings_by_hits filePath [] 1 _ _ _ emptyLine_hits Hp),
      (lineFindings_by_hits filePath [] 2 _ _ _ emptyLine_hits Hp),
      (lineFindings_by_hits filePath [] 3 _ _ _ emptyLine_hits Hp),
      (lineFindings_by_hits filePath longTableLine 4 _ _ _ longTableLine_hits Hp).
    cbn [fst snd map app]. reflexivity.
Qed.

Lemma table_name_matching_witness :
  regexTest (tablePattern (js "teric-agentic-work-items")) (js "gi")
    (js "x = " ++ squote :: js "tericagentic-workitems" ++ backtick :: js ";") = true
  /\ regexTest (tablePattern (js "teric-agentic-workflows")) (js "gi")
       (js "x = " ++ squote :: js "teric-agentic-work-items" ++ js "-v2"
        ++ squote :: js ";") = false
  /\ fst (scanLine (js "src/handler.ts") tableLine 4 ([], []))
     = [tableViolation (js "src/handler.ts") tableLine 5 (js "teric-agentic-work-items")]
  /\ filter (onLine 5) (fst (scanFile lateWorld (js "src/late.ts")))
     = [tableViolation (js "src/late.ts") tableLine 5 (js "teric-agentic-work-items")]
  /\ map Scanner.line (fst (scanFile lateWorld (js "src/late.ts"))) = [Some 5; Some 6]
  /\ scanFile longWorld (js "src/long.ts")
     = ([{| type := hardcoded_table_name;
            severity := sev_error;
            file := Some (js "src/long.ts");
            line := Some 5;
            message := JStr (js "Hardcoded table name 'teric-agentic-work-items' should use @teric/contracts");
            contract := Some (js "@teric/contracts/dynamodb/work-items");
            snippet := Some (js "const workItems = process.env.WORK_ITEMS_TABLE || 'teric-agentic-work-items'; // falls back to the s");
            expected := None |}],
        []).
Proof.
  pose proof table_name_matching as (Ha & Hb & Hc & _ & He & _ & Hg).
  split; [|split; [|split; [|split; [|split]]]].
  - apply Ha; try reflexivity; apply existsb_eqb_In; reflexivity.
  - apply Hb; try reflexivity; try (apply existsb_eqb_In; reflexivity).
    discriminate.
  - rewrite Hc; reflexivity.
  - exact (proj1 (He lateWorld (js "src/late.ts") [newline; newline; newline; newline]
                    (newline :: lambdaLine) eq_refl
                    (or_intror (ex_intro _ [newline; newline; newline] eq_refl))
                    (or_intror (ex_intro _ lambdaLine eq_refl)) eq_refl)).
  - vm_compute. reflexivity.
  - exact (Hg longWorld (js "src/long.ts") eq_refl eq_refl).
Defined.

(* ================================================================= *)
(** ** The text a file contributes to the prompt *)

Lemma split_lines_lineFree (s : jsstr) :
  Forall (fun l => lineFeeds l = 0) (split_lines s).
Proof.
  induction s as [|c s IH]; cbn [split_lines].
  - constructor; [reflexivity|constructor].
  - destruct (N.eqb_spec c newline) as [->|Hc].
    + constructor; [reflexivity|exact IH].
    + destruct (split_lines s) as [|l ls].
      * constructor; [|constructor]. unfold lineFeeds. cbn [filter].
        destruct (N.eqb_spec newline c); [congruence|reflexivity].
      * inversion IH as [|l0 ls0 Hl Hls]. subst. constructor; [|exact Hls].
        unfold lineFeeds in *. cbn [filter].
        destruct (N.eqb_spec newline c); [congruence|exact Hl].
Qed.

Lemma joinLines_app (before after : list jsstr) :
  before <> [] -> after <> [] ->
  joinLines (before ++ after) = joinLines before ++ newline :: joinLines after.
Proof.
  intros Hb Ha. induction before as [|b before IH]; [congruence|].
  destruct before as [|b' before].
  - cbn [app joinLines]. destruct after; [congruence|reflexivity].
  - change ((b :: b' :: before) ++ after) with (b :: (b' :: before) ++ after).
    change (joinLines (b :: (b' :: before) ++ after))
      with (b ++ newline :: joinLines ((b' :: before) ++ after)).
    rewrite IH by discriminate.
    change (joinLines (b :: b' :: before))
      with (b ++ newline :: joinLines (b' :: before)).
    rewrite <- app_assoc. reflexivity.
Qed.

Lemma lineFeeds_cons_newline (s : jsstr) : lineFeeds (newline :: s) = S (lineFeeds s).
Proof. reflexivity. Qed.

Lemma lineFeeds_joinLines (lines : list jsstr) :
  Forall (fun l => lineFeeds l = 0) lines ->
  lineFeeds (joinLines lines) = List.length lines - 1.
Proof.
  induction lines as [|l lines IH]; intros H; [reflexivity|].
  inversion H as [|l0 ls0 Hl Hls]. subst. destruct lines as [|l' lines].
  - exact Hl.
  - change (joinLines (l :: l' :: lines)) with (l ++ newline :: joinLines (l' :: lines)).
    rewrite lineFeeds_app, lineFeeds_cons_newline, Hl, (IH Hls).
    cbn [List.length]. lia.
Qed.

(** The text cut after its first lines is the beginning of the text that
    ends before the line feed that closes the last line allowed. *)
Lemma lineCapped_spec (maxLines : option nat) (content : jsstr) :
  exists rest,
    content = lineCapped maxLines content ++ rest
    /\ match maxLines with
       | Some (S n) =>
           (rest = [] /\ lineFeeds content <= n)
           \/ (exists rest', rest = newline :: rest'
                             /\ lineFeeds (lineCapped maxLines content) = n)
       | _ => rest = []
       end.
Proof.
  destruct maxLines as [[|n]|]; cbn [lineCapped];
    try (exists []; split; [now rewrite app_nil_r|reflexivity]).
  pose proof (split_lines_length content) as Hlen.
  pose proof (split_lines_lineFree content) as Hfree.
  pose proof (joinLines_split_lines content) as Hjoin.
  destruct (Nat.le_gt_cases (List.length (split_lines content)) (S n)) as [Hle|Hgt].
  - exists []. rewrite firstn_all2 by exact Hle. rewrite Hjoin, app_nil_r.
    split; [reflexivity|]. left. split; [reflexivity|lia].
  - rewrite <- (firstn_skipn (S n) (split_lines content)) in Hjoin, Hfree.
    apply Forall_app in Hfree as [Hfree _].
    assert (Hfirst : List.length (firstn (S n) (split_lines content)) = S n)
      by (rewrite length_firstn; lia).
    assert (Hskip : List.length (skipn (S n) (split_lines content)) <> 0)
      by (rewrite length_skipn; lia).
    rewrite joinLines_app in Hjoin.
    + exists (newline :: joinLines (skipn (S n) (split_lines content))).
      split; [now rewrite Hjoin|]. right. eexists. split; [reflexivity|].
      rewrite (lineFeeds_joinLines _ Hfree), Hfirst. lia.
    + intros H. rewrite H in Hfirst. discriminate.
    + intros H. rewrite H in Hskip. now apply Hskip.
Qed.

Section ReadFileIfExistsResult.

Variables (w : World) (resolve : jsstr -> jsstr).

(** X19. What [readFileIfExists] returns. (1) A file that does not exist
    gives [null] and no warning. (2) A file that exists and cannot be read
    raises the exception of the read. (3) A file that is read is first cut
    to its lines: with a positive limit [n] the text is kept up to the
    [n]-th line feed, which is left out with all that follows it, and kept
    whole when it has fewer than [n] line feeds; with no limit, or the limit
    0, it is kept whole. (4) A text so cut of at most 8000 characters is
    returned as it is, without a warning. (5) A longer one is returned as
    its first 8000 characters followed by a line feed and
    [... (truncated)], with one warning that names the file as it was
    asked for and the length before the cut. *)
Theorem readFileIfExists_result (filePath : jsstr) (maxLines : option nat) :
  (existsSync w (resolve filePath) = false ->
   readFileIfExists w resolve filePath maxLines = Ok (None, []))
  /\ (forall e,
      existsSync w (resolve filePath) = true ->
      readFileSync w (resolve filePath) = Throw e ->
      readFileIfExists w resolve filePath maxLines = Throw e)
  /\ (forall content,
      existsSync w (resolve filePath) = true ->
      readFileSync w (resolve filePath) = Ok content ->
      (exists rest,
          content = lineCapped maxLines content ++ rest
          /\ match maxLines with
             | Some (S n) =>
                 (rest = [] /\ lineFeeds content <= n)
                 \/ (exists rest', rest = newline :: rest'
                                   /\ lineFeeds (lineCapped maxLines content) = n)
             | _ => rest = []
             end)
      /\ (List.length (lineCapped maxLines content) <= 8000 ->
          readFileIfExists w resolve filePath maxLines
          = Ok (Some (lineCapped maxLines content), []))
      /\ (8000 < List.length (lineCapped maxLines content) ->
          readFileIfExists w resolve filePath maxLines
          = Ok (Some (firstn 8000 (lineCapped maxLines content)
                      ++ newline :: js "... (truncated)"),
                [js "[architecture-extractor] Truncating " ++ filePath ++ js " ("
                 ++ decimal (List.length (lineCapped maxLines content))
                 ++ js " chars > 8000)"]))).
Proof.
  unfold readFileIfExists, bind. split; [|split].
  - intros ->. reflexivity.
  - intros e -> ->. reflexivity.
  - intros content -> ->. cbn [negb]. fold (lineCapped maxLines content).
    split; [apply lineCapped_spec|].
    unfold truncationNotice.
    generalize (lineCapped maxLines content). intros capped.
    generalize 8000. intros limit.
    split; intros H;
      destruct (Nat.ltb_spec limit (List.length capped)); (lia || reflexivity).
Qed.

End ReadFileIfExistsResult.

Lemma readFileIfExists_result_witness :
  readFileIfExists bigWorld (Path.join (js "repo")) (js "big.txt") (Some 1)
  = Ok (Some (repeat 97%N 8000 ++ newline :: js "... (truncated)"),
        [js "[architecture-extractor] Truncating big.txt (9000 chars > 8000)"])
  /\ readFileIfExists bigWorld (Path.join (js "repo")) (js "big.txt") None
     = Ok (Some (repeat 97%N 8000 ++ newline :: js "... (truncated)"),
           [js "[architecture-extractor] Truncating big.txt (9005 chars > 8000)"]).
Proof.
  split.
  - destruct (readFileIfExists_result bigWorld (Path.join (js "repo")) (js "big.txt")
                (Some 1)) as (_ & _ & H).
    destruct (H bigFile eq_refl eq_refl) as (_ & _ & Hlong).
    rewrite Hlong; [vm_compute; reflexivity|].
    apply Nat.ltb_lt. vm_compute. reflexivity.
  - destruct (readFileIfExists_result bigWorld (Path.join (js "repo")) (js "big.txt")
                None) as (_ & _ & H).
    destruct (H bigFile eq_refl eq_refl) as (_ & _ & Hlong).
    rewrite Hlong; [vm_compute; reflexivity|].
    apply Nat.ltb_lt. vm_compute. reflexivity.
Defined.
